(** * Harmonia Polifonica Chorale site: a shallow embedding of [src/App.tsx]

    The single React component [App] is modelled by

    - [Routing]: the two [switch] helpers [toPath] and [toSection];
    - [Content]: the fixed [highlightsEvents] array and [heroImages];
    - [Component]: the component state, its handlers and effects as a
      transition system, and [renderSection] over an abstract view;
    - [Counter]: the [animate] frame callback of [AnimatedCounter];
    - [ContactForm]: [handleSubmit] in a small state-and-exception monad
      whose log records every observable effect.

    JavaScript strings are [string], integral numbers are [Z], the
    animation arithmetic is carried out over [Q]. *)

From Stdlib Require Import String Ascii List ZArith QArith Qround Qminmax Qpower Bool Lia Lqa.
Import ListNotations.

Local Open Scope string_scope.

(** ** JavaScript truthiness of the values the component tests *)

Module Js.

(** [!!s] for a string: only the empty string is falsy. *)
Definition truthy_string (s : string) : bool :=
  negb (String.eqb s "").

(** [!!v] for [string | undefined]. *)
Definition truthy (v : option string) : bool :=
  match v with
  | None => false
  | Some s => truthy_string s
  end.

(** [!!n] for [number | null] restricted to integers. *)
Definition truthy_number (v : option Z) : bool :=
  match v with
  | None => false
  | Some n => negb (Z.eqb n 0)
  end.

(** [a || b] on strings. *)
Definition or_else (a : option string) (b : string) : string :=
  match a with
  | Some s => if truthy_string s then s else b
  | None => b
  end.

End Js.

(** ** Routing helpers (App.tsx, lines 48-77) *)

Module Routing.

Definition toPath (section : string) : string :=
  if String.eqb section "Home" then "/"
  else if String.eqb section "Highlights" then "/highlights"
  else if String.eqb section "About" then "/about"
  else if String.eqb section "Contact" then "/contact"
  else "/".

Definition toSection (pathname : string) : string :=
  if String.eqb pathname "/" then "Home"
  else if String.eqb pathname "/home" then "Home"
  else if String.eqb pathname "/highlights" then "Highlights"
  else if String.eqb pathname "/about" then "About"
  else if String.eqb pathname "/contact" then "Contact"
  else "Home".

(** The four section names, as in [nav.map(n => n.name)]. *)
Definition navItems : list string :=
  ["Home"; "Highlights"; "About"; "Contact"].

(** The four documented URL paths. *)
Definition sitePaths : list string :=
  ["/"; "/highlights"; "/about"; "/contact"].

End Routing.

(** ** Fixed content (App.tsx, lines 308-386) *)

Module Content.

(** [interface Event] *)
Record Event := {
  id : Z;
  title : string;
  award : string;
  image : string;
  background : string;
  description : string;
  stats : list (string * string);
  gallery : list string
}.

Definition event1 : Event :=
  {| id := 1;
     title := "Andrea O. Veneracion International Choral Festival 2025";
     award := "Manila, Philippines";
     image := "/images/AOV25/main.webp";
     background := "from-black via-red-900/30 to-black";
     description := "The 6th Andrea O. Veneracion International Choral Festival, held at the AretÃ© in Manila, gathered 34 choirs and over 1,200 singers from around the world in a celebration of choral excellence and cultural exchange. Among the participating ensembles, Harmonia Polifonica Chorale earned distinction by receiving Double Gold Diplomas in both the Folk Song and Musica Sacra categories. Beyond the accolades, this achievement reflects the dedication and perseverance of its student-singers, who balanced academic responsibilities with rigorous artistic preparation, embodying discipline, commitment, and passion for choral music.";
     stats := [("Gold Diploma", "Musica Sacra Category");
               ("Gold Diploma", "Folk Song Category")];
     gallery := ["/images/AOV25/1.webp";
                 "/images/AOV25/2.webp";
                 "/images/AOV25/3.webp";
                 "/images/AOV25/4.webp"] |}.

Definition event2 : Event :=
  {| id := 2;
     title := "Himig Handog International Choral Festival 2025";
     award := "Tagum City, Philippines";
     image := "/images/M25/main.webp";
     background := "from-red-950 via-orange-900/40 to-black";
     description := "The Himig Handog International Choral Competition 2025 is an international choral festival that gathers choirs from different regions to celebrate excellence in choral performance, musical interpretation, and cultural expression. The event features multiple competition categories and culminates in a Grand Prix round. During the competition, Harmonia Polifonica Chorale achieved 3rd Place in the Grand Prix and received distinctions in the Mixed and Folklore categories, including recognition for musical interpretation. The event highlighted artistic discipline, collaboration, and the shared passion of participating ensembles for choral music.";
     stats := [("3rd Place", "Grand Prix Finals");
               ("Champion", "Mixed Category");
               ("Best Interpretation", "Mixed Category");
               ("2nd Place", "Folklore Category")];
     gallery := ["/images/M25/1.webp";
                 "/images/M25/3.webp";
                 "/images/M25/2.webp";
                 "/images/M25/4.webp"] |}.

Definition event3 : Event :=
  {| id := 3;
     title := "Himig Handog International Choral Festival 2024";
     award := "Tagum City, Philippines";
     image := "/images/M24/main.webp";
     background := "from-red-950 via-orange-900/40 to-black";
     description := "The 21st Musikahan sa Tagum Festival Himig Handog International Choir Grand Prix 2024 is a choral competition that brings together local and international choirs in a celebration of musical excellence and cultural expression. As part of the festival, participating ensembles compete in various categories, culminating in the Grand Prix Finals. Harmonia Polifonica Chorale marked its return to Musikahan sa Tagum after its last appearance in 2016, participating in the competition and earning distinctions in the Mixed and Folk categories, as well as in the Grand Prix Finals. The event highlighted the choirâ€™s renewed presence on the choral stage and its continued commitment to artistic growth and performance.";
     stats := [("2nd Prize", "Grand Prix Finals");
               ("2nd Prize", "Folk Category");
               ("4th Place", "Mixed Category")];
     gallery := ["/images/M24/1.webp";
                 "/images/M24/3.webp";
                 "/images/M24/2.webp";
                 "/images/M24/4.webp"] |}.

Definition event4 : Event :=
  {| id := 4;
     title := "Andrea O. Veneracion International Choral Festival 2023";
     award := "Makati City, Philippines";
     image := "/images/AOV23/main.webp";
     background := "from-red-950 via-orange-900/40 to-black";
     description := "On July 23rd, Harmonia Polifonica Chorale marked a significant milestone as it returned to the international stage at the Andrea O. Veneracion International Choral Festival in Makati City after several years of hiatus. Competing among choirs from various regions, HPC proudly earned Gold Diplomas in both the Folk Song and Mixed Choir categories, demonstrating the choirâ€™s dedication, artistry, and resilience. This event celebrated not only the choirâ€™s musical achievements but also its successful re-emergence on the international choral scene.";
     stats := [("Gold Diploma", "Mixed Choir Category");
               ("Gold Diploma", "Folk Song Category")];
     gallery := ["/images/AOV23/1.webp";
                 "/images/AOV23/4.webp";
                 "/images/AOV23/3.webp";
                 "/images/AOV23/2.webp"] |}.

Definition highlightsEvents : list Event :=
  [event1; event2; event3; event4].

Definition heroImages : list string :=
  map image highlightsEvents.

(** [highlightsEvents.find(e => e.id === n)] *)
Definition find_event (n : Z) : option Event :=
  find (fun e => Z.eqb (id e) n) highlightsEvents.

End Content.

(** ** Component state, handlers, effects and rendering *)

Module Component.

Import Routing Content.

(** The [useState] cells of [App], together with [location.pathname]
    as supplied by the router. *)
Record State := {
  activeSection : string;
  selectedEventId : option Z;
  userEmail : string;
  userName : string;
  userPhone : string;
  currentHeroIndex : Z;
  pathname : string
}.

(** State at mount for a page opened at [p]. *)
Definition initial (p : string) : State :=
  {| activeSection := "Home";
     selectedEventId := None;
     userEmail := "";
     userName := "";
     userPhone := "";
     currentHeroIndex := 0;
     pathname := p |}.

Definition setActiveSection (v : string) (st : State) : State :=
  {| activeSection := v;
     selectedEventId := selectedEventId st;
     userEmail := userEmail st;
     userName := userName st;
     userPhone := userPhone st;
     currentHeroIndex := currentHeroIndex st;
     pathname := pathname st |}.

Definition setSelectedEventId (v : option Z) (st : State) : State :=
  {| activeSection := activeSection st;
     selectedEventId := v;
     userEmail := userEmail st;
     userName := userName st;
     userPhone := userPhone st;
     currentHeroIndex := currentHeroIndex st;
     pathname := pathname st |}.

Definition setUserEmail (v : string) (st : State) : State :=
  {| activeSection := activeSection st;
     selectedEventId := selectedEventId st;
     userEmail := v;
     userName := userName st;
     userPhone := userPhone st;
     currentHeroIndex := currentHeroIndex st;
     pathname := pathname st |}.

Definition setUserName (v : string) (st : State) : State :=
  {| activeSection := activeSection st;
     selectedEventId := selectedEventId st;
     userEmail := userEmail st;
     userName := v;
     userPhone := userPhone st;
     currentHeroIndex := currentHeroIndex st;
     pathname := pathname st |}.

Definition setUserPhone (v : string) (st : State) : State :=
  {| activeSection := activeSection st;
     selectedEventId := selectedEventId st;
     userEmail := userEmail st;
     userName := userName st;
     userPhone := v;
     currentHeroIndex := currentHeroIndex st;
     pathname := pathname st |}.

(** [setCurrentHeroIndex] with an updater function, as the interval
    callback uses it. *)
Definition setCurrentHeroIndex (f : Z -> Z) (st : State) : State :=
  {| activeSection := activeSection st;
     selectedEventId := selectedEventId st;
     userEmail := userEmail st;
     userName := userName st;
     userPhone := userPhone st;
     currentHeroIndex := f (currentHeroIndex st);
     pathname := pathname st |}.

(** The router delivering a new location (back/forward, deep link, or
    the outcome of [navigate]). *)
Definition setPathname (p : string) (st : State) : State :=
  {| activeSection := activeSection st;
     selectedEventId := selectedEventId st;
     userEmail := userEmail st;
     userName := userName st;
     userPhone := userPhone st;
     currentHeroIndex := currentHeroIndex st;
     pathname := p |}.

(** [heroImages.length] *)
Definition heroCount : Z := Z.of_nat (length heroImages).

(** The interval callback, [(prev) => (prev + 1) % heroImages.length];
    [%] is the truncating remainder. *)
Definition nextHero (prev : Z) : Z := Z.rem (prev + 1) heroCount.

(** Effect of lines 80-84, run on the values of the committed render:
    [const s = toSection(location.pathname);
     if (s !== activeSection) setActiveSection(s)]. *)
Definition sectionFromUrl (snapshot : State) (st : State) : State :=
  let s := toSection (pathname snapshot) in
  if String.eqb s (activeSection snapshot) then st else setActiveSection s st.

(** Effect of lines 87-91, on the same snapshot:
    [const p = toPath(activeSection);
     if (location.pathname !== p) navigate(p)]. *)
Definition urlFromSection (snapshot : State) (st : State) : State :=
  let p := toPath (activeSection snapshot) in
  if String.eqb (pathname snapshot) p then st else setPathname p st.

(** Everything that can change the state.  Which effects run after a
    commit is decided by React from the dependency arrays; the flags of
    [RunEffects] say which dependencies changed, and both bodies read the
    same snapshot. *)
Inductive Action :=
| NavClick (name : string)
| AboutUsClick
| ExploreClick (event : Event)
| BackClick
| LocationChange (p : string)
| RunEffects (pathChanged sectionChanged : bool)
| HeroTick
| DotClick (index : Z)
| NameInput (v : string)
| EmailInput (v : string)
| PhoneInput (v : string).

Definition step (st : State) (a : Action) : State :=
  match a with
  | NavClick name => setSelectedEventId None (setActiveSection name st)
  | AboutUsClick => setActiveSection "About" st
  | ExploreClick event => setSelectedEventId (Some (id event)) st
  | BackClick => setSelectedEventId None st
  | LocationChange p => setPathname p st
  | RunEffects pathChanged sectionChanged =>
      let st1 := if pathChanged then sectionFromUrl st st else st in
      if sectionChanged then urlFromSection st st1 else st1
  | HeroTick =>
      if Z.eqb heroCount 0 then st else setCurrentHeroIndex nextHero st
  | DotClick index => setCurrentHeroIndex (fun _ => index) st
  | NameInput v => setUserName v st
  | EmailInput v => setUserEmail v st
  | PhoneInput v => setUserPhone v st
  end.

(** The controls that exist: nav buttons are generated from [nav], the
    explore buttons from [highlightsEvents], the dots from the indices
    of [heroImages] (and only when there is more than one image). *)
Definition offered (a : Action) : Prop :=
  match a with
  | NavClick name => In name navItems
  | ExploreClick event => In event highlightsEvents
  | DotClick index => (1 < heroCount)%Z /\ (0 <= index < heroCount)%Z
  | _ => True
  end.

Inductive reachable : State -> Prop :=
| reach_mount (p : string) : reachable (initial p)
| reach_step (st : State) (a : Action) :
    reachable st -> offered a -> reachable (step st a).

(** The two invariants named by the data model. *)
Definition selection_ok (st : State) : Prop :=
  forall n, selectedEventId st = Some n ->
            exists e, In e highlightsEvents /\ id e = n.

Definition section_ok (st : State) : Prop :=
  In (activeSection st) navItems.

(** The hero index addresses an existing image. *)
Definition hero_ok (st : State) : Prop :=
  (0 <= currentHeroIndex st < heroCount)%Z.

(** *** Rendering *)

(** What [renderSection] puts on screen, with the data each view shows. *)
Inductive View :=
| EventDetailView (event : Event)
| HomeView (heroSrc : string) (heroAlt : Z) (dots : list Z)
| HighlightsView (cards : list Event)
| AboutView
| ContactView (name email phone : string)
| NullView.

Definition renderEventDetail (event : Event) : View :=
  EventDetailView event.

(** [heroImages[i] || '/images/mainImage.webp'] *)
Definition heroSrc (i : Z) : string :=
  if (i <? 0)%Z then "/images/mainImage.webp"
  else Js.or_else (nth_error heroImages (Z.to_nat i)) "/images/mainImage.webp".

Definition heroDots : list Z :=
  if (1 <? heroCount)%Z
  then map Z.of_nat (seq 0 (length heroImages))
  else [].

Definition renderSection (st : State) : View :=
  let selectedEvent :=
    if Js.truthy_number (selectedEventId st)
    then match selectedEventId st with
         | Some n => find_event n
         | None => None
         end
    else None in
  match selectedEvent with
  | Some event => renderEventDetail event
  | None =>
      let s := activeSection st in
      if String.eqb s "Home" then
        HomeView (heroSrc (currentHeroIndex st))
                 (currentHeroIndex st + 1) heroDots
      else if String.eqb s "Highlights" then HighlightsView highlightsEvents
      else if String.eqb s "About" then AboutView
      else if String.eqb s "Contact" then
        ContactView (userName st) (userEmail st) (userPhone st)
      else NullView
  end.

End Component.

(** ** The count-up animation of [AnimatedCounter] (lines 203-231)

    Numbers are exact rationals here: [Math.min], [Math.pow(_, 4)],
    [Math.floor], subtraction, division and product are the exact
    operations, and [duration] is taken positive where a quotient by it
    matters.  The code computes in IEEE doubles with an
    implementation-approximated [Math.pow], so on an ordinary frame the
    two can differ in the last place.  They agree on the first frame of a
    run (elapsed time 0, progress 0, count 0) and on every frame whose
    elapsed time has reached the duration (progress 1, count
    [Math.floor(target)]), and the value of [startTime] involves no
    arithmetic at all; the properties below are stated about those frames
    only, apart from one evaluation at timestamps whose intermediate
    values are dyadic and far from a whole number. *)

Module Counter.

Local Open Scope Q_scope.

(** The props the animation reads. *)
Record Props := {
  target : Q;
  duration : Q
}.

(** [duration = 2000] when the prop is omitted. *)
Definition defaultDuration : Q := 2000.

(** The mutable pieces of one run of the effect: the closure variable
    [startTime], the [count] state cell, and whether a frame callback is
    currently requested ([rafId] registered and not yet fired). *)
Record Anim := {
  startTime : option Q;
  count : Z;
  scheduled : bool
}.

(** The state right after the effect ran
    [rafId = requestAnimationFrame(animate)]. *)
Definition started : Anim :=
  {| startTime := None; count := 0%Z; scheduled := true |}.

(** [!startTime] for [number | undefined]. *)
Definition unset (s : option Q) : bool :=
  match s with
  | None => true
  | Some q => Qeq_bool q 0
  end.

(** The value of [startTime] after [if (!startTime) startTime = timestamp]. *)
Definition startOf (a : Anim) (timestamp : Q) : Q :=
  match startTime a with
  | None => timestamp
  | Some q => if Qeq_bool q 0 then timestamp else q
  end.

Definition progressAt (p : Props) (a : Anim) (timestamp : Q) : Q :=
  Qmin ((timestamp - startOf a timestamp) / duration p) 1.

Definition easeOutQuart (progress : Q) : Q :=
  1 - (1 - progress) ^ 4.

(** One call of the frame callback [animate(timestamp)]. *)
Definition animate (p : Props) (a : Anim) (timestamp : Q) : Anim :=
  let progress := progressAt p a timestamp in
  {| startTime := Some (startOf a timestamp);
     count := Qfloor (easeOutQuart progress * target p);
     scheduled := negb (Qle_bool 1 progress) |}.

(** The browser delivering frames: [animate] is called on a timestamp
    only while a callback is registered. *)
Fixpoint frames (p : Props) (a : Anim) (timestamps : list Q) : Anim :=
  match timestamps with
  | [] => a
  | t :: rest =>
      if scheduled a then frames p (animate p a t) rest else a
  end.

(** The three counters of the About section (lines 714-716); none
    passes [duration]. *)
Definition yearsPerforming : Props :=
  {| target := 20; duration := defaultDuration |}.
Definition livePerformances : Props :=
  {| target := 100; duration := defaultDuration |}.

End Counter.

(** ** The contact form handler [handleSubmit] (lines 93-170) *)

Module ContactForm.

(** The [HTMLFormElement] behind [formRef], by the values it submits. *)
Record Form := {
  form_name : string;
  form_email : string;
  form_phone : string;
  form_message : string
}.

(** [import.meta.env] and [window.location.hostname]; [hostname] is
    [None] when [window] is undefined. *)
Record Env := {
  VITE_EMAILJS_SERVICE_ID : option string;
  VITE_EMAILJS_TEMPLATE_ID : option string;
  VITE_EMAILJS_PUBLIC_KEY : option string;
  VITE_EMAILJS_REPLY_TEMPLATE_ID : option string;
  VITE_REPLY_EMAIL : option string;
  hostname : option string
}.

Record ReplyParams := {
  to_email : string;
  from_name : string;
  name : string;
  from_email : string;
  email : string;
  phone : string;
  phone_number : string;
  reply_email : string;
  message : string
}.

Inductive Level := Error | Warn | Log.

(** The closure handed to [setTimeout] on the simulation path. *)
Inductive Callback := SimulatedSend.

(** Every observable thing the handler does. *)
Inductive Effect :=
| PreventDefault
| Console (level : Level) (msg : string)
| Alert (msg : string)
| SetTimeout (callback : Callback) (ms : Z)
| FormReset
| SendForm (serviceId templateId : string) (form : Form) (publicKey : string)
| Send (serviceId templateId : string) (params : ReplyParams) (publicKey : string).

(** What the handler cannot decide: whether each provider promise
    resolves, and whether the form is unmounted (the user leaves the
    Contact section) while the handler is suspended at [await]. *)
Record Outside := {
  sendForm_resolves : bool;
  unmounted_during_await : bool;
  send_resolves : bool
}.

(** The mutable cell [formRef.current] and the log of effects so far. *)
Record World := {
  formRef : option Form;
  log : list Effect
}.

Inductive Exn := TypeError | ProviderError.

(** Computations that read and write the world and may throw. *)
Definition M (A : Type) : Type := World -> (Exn + A) * World.

Definition ret {A} (a : A) : M A := fun w => (inr a, w).

Definition bind {A B} (m : M A) (k : A -> M B) : M B :=
  fun w =>
    match m w with
    | (inl e, w') => (inl e, w')
    | (inr a, w') => k a w'
    end.

Definition throw {A} (e : Exn) : M A := fun w => (inl e, w).

(** [try { m } catch (err) { h err }] *)
Definition try_catch {A} (m : M A) (h : Exn -> M A) : M A :=
  fun w =>
    match m w with
    | (inl e, w') => h e w'
    | (inr a, w') => (inr a, w')
    end.

Declare Scope js_scope.
Delimit Scope js_scope with js.
Notation "x <- m ;; k" := (bind m (fun x => k))
  (at level 61, m at next level, right associativity) : js_scope.
Notation "m ;; k" := (bind m (fun _ => k))
  (at level 61, right associativity) : js_scope.
Local Open Scope js_scope.

Definition emit (e : Effect) : M unit :=
  fun w => (inr tt, {| formRef := formRef w; log := log w ++ [e] |}).

(** Reading [formRef.current]. *)
Definition current : M (option Form) :=
  fun w => (inr (formRef w), w).

(** The handler is suspended; React may detach the ref meanwhile. *)
Definition suspended (out : Outside) : M unit :=
  fun w =>
    (inr tt,
     {| formRef := if unmounted_during_await out then None else formRef w;
        log := log w |}).

Definition alert (msg : string) : M unit := emit (Alert msg).

(** [formRef.current.reset()]: a property access on [null] throws. *)
Definition reset : M unit :=
  cur <- current ;;
  match cur with
  | Some _ => emit FormReset
  | None => throw TypeError
  end.

(** [formRef.current?.reset()] *)
Definition reset_if_mounted : M unit :=
  cur <- current ;;
  match cur with
  | Some _ => emit FormReset
  | None => ret tt
  end.

(** [await emailjs.sendForm(serviceId, templateId, form, publicKey)] *)
Definition await_sendForm (out : Outside)
    (serviceId templateId : string) (form : Form) (publicKey : string)
  : M unit :=
  emit (SendForm serviceId templateId form publicKey) ;;
  suspended out ;;
  if sendForm_resolves out then ret tt else throw ProviderError.

(** [emailjs.send(...).then(() => console.log(...))
                      .catch((replyErr) => console.warn(...))]:
    not awaited, the rejection is consumed by [.catch]. *)
Definition send_and_log (out : Outside)
    (serviceId templateId : string) (params : ReplyParams)
    (publicKey : string) : M unit :=
  emit (Send serviceId templateId params publicKey) ;;
  if send_resolves out
  then emit (Console Log "Auto-reply sent to")
  else emit (Console Warn "Auto-reply failed:").

(** The body of a timer callback, when the timer fires. *)
Definition fire (cb : Callback) : M unit :=
  match cb with
  | SimulatedSend => alert "Simulated: Message sent!" ;; reset_if_mounted
  end.

(** The string behind a value already tested truthy. *)
Definition text (v : option string) : string :=
  match v with
  | Some s => s
  | None => ""
  end.

Definition isLocalHost (env : Env) : bool :=
  match hostname env with
  | None => false
  | Some h => String.eqb h "localhost" || String.eqb h "127.0.0.1"
  end.

Definition replyParams (env : Env) (st : Component.State) : ReplyParams :=
  {| to_email := Component.userEmail st;
     from_name := Component.userName st;
     name := Component.userName st;
     from_email := Component.userEmail st;
     email := Component.userEmail st;
     phone := Component.userPhone st;
     phone_number := Component.userPhone st;
     reply_email := Js.or_else (VITE_REPLY_EMAIL env) "hpcsingers@gmail.com";
     message := "Thanks â€” we received your message. We'll reply as soon as we can." |}.

(** The guard [!serviceId || !templateId || !publicKey]. *)
Definition configMissing (env : Env) : bool :=
  negb (Js.truthy (VITE_EMAILJS_SERVICE_ID env))
  || negb (Js.truthy (VITE_EMAILJS_TEMPLATE_ID env))
  || negb (Js.truthy (VITE_EMAILJS_PUBLIC_KEY env)).

(** The test [replyTemplateId && userEmail]. *)
Definition wantsReply (env : Env) (st : Component.State) : bool :=
  Js.truthy (VITE_EMAILJS_REPLY_TEMPLATE_ID env)
  && Js.truthy_string (Component.userEmail st).

Definition handleSubmit (env : Env) (st : Component.State) (out : Outside)
  : M unit :=
  emit PreventDefault ;;
  cur <- current ;;
  match cur with
  | None => ret tt
  | Some form =>
      let serviceId := text (VITE_EMAILJS_SERVICE_ID env) in
      let templateId := text (VITE_EMAILJS_TEMPLATE_ID env) in
      let publicKey := text (VITE_EMAILJS_PUBLIC_KEY env) in
      let replyTemplateId := text (VITE_EMAILJS_REPLY_TEMPLATE_ID env) in
      if configMissing env then
        emit (Console Error "Missing EmailJS configuration") ;;
        if isLocalHost env then
          emit (Console Warn "Simulating email send on localhost.") ;;
          emit (SetTimeout SimulatedSend 700)
        else
          alert "Email service is not configured. Please try again later."
      else
        try_catch
          (await_sendForm out serviceId templateId form publicKey ;;
           alert "Message sent successfully!" ;;
           reset ;;
           if wantsReply env st
           then send_and_log out serviceId replyTemplateId
                             (replyParams env st) publicKey
           else ret tt)
          (fun err =>
             emit (Console Error "EmailJS send error:") ;;
             alert "Failed to send message. Please try again later.")
  end.

(** One submission, from a fresh log, with [formRef.current] as given. *)
Definition submit (env : Env) (st : Component.State) (out : Outside)
    (mounted : option Form) : list Effect :=
  log (snd (handleSubmit env st out {| formRef := mounted; log := [] |})).

(** Projections of a log. *)
Definition is_network (e : Effect) : bool :=
  match e with
  | SendForm _ _ _ _ | Send _ _ _ _ => true
  | _ => false
  end.

Definition is_ack (e : Effect) : bool :=
  match e with
  | Send _ _ _ _ => true
  | _ => false
  end.

(** What the user sees: alerts and the form being cleared. *)
Definition is_visible (e : Effect) : bool :=
  match e with
  | Alert _ | FormReset => true
  | _ => false
  end.

Definition network (tr : list Effect) : list Effect := filter is_network tr.
Definition acks (tr : list Effect) : list Effect := filter is_ack tr.
Definition visible (tr : list Effect) : list Effect := filter is_visible tr.

End ContactForm.

(** ** The navigation bar and the hero dots (lines 612-625, 998-1046) *)

Module Chrome.

Import Routing Content Component.

(** One button per entry of [nav]; the flag is [activeSection === name],
    which drives both the highlight and [aria-current]. *)
Definition navButtons (st : State) : list (string * bool) :=
  map (fun name => (name, String.eqb (activeSection st) name)) navItems.

(** One dot per image; the flag is [index === currentHeroIndex]. *)
Definition dotButtons (st : State) : list (Z * bool) :=
  map (fun index => (index, Z.eqb index (currentHeroIndex st))) heroDots.

(** The address bar shows the path of the active section. *)
Definition synced (st : State) : Prop :=
  pathname st = toPath (activeSection st).

End Chrome.

(** ** The media-query hook and the breakpoints (lines 12-26, 961-963)

    [window.matchMedia] belongs to the browser; a query holds of a
    viewport width as CSS defines it, [max-width: n px] for widths up to
    and including [n], [min-width: n px] for widths from [n] on. *)

Module Media.

Local Open Scope Q_scope.

Inductive Query :=
| MaxWidth (px : Z)
| MinWidth (px : Z)
| Both (a b : Query).

(** [window.matchMedia(query).matches] at a viewport of the given width. *)
Fixpoint matchMedia (query : Query) (width : Q) : bool :=
  match query with
  | MaxWidth px => Qle_bool width (inject_Z px)
  | MinWidth px => Qle_bool (inject_Z px) width
  | Both a b => matchMedia a width && matchMedia b width
  end.

(** ['(max-width: 768px)'] *)
Definition mobileQuery : Query := MaxWidth 768.

(** ['(min-width: 769px) and (max-width: 1024px)'] *)
Definition tabletQuery : Query := Both (MinWidth 769) (MaxWidth 1024).

(** ['(min-width: 1025px)'] *)
Definition desktopQuery : Query := MinWidth 1025.

(** [useMediaQuery(query)]: the [matches] cell is [false] until the effect
    has run; the effect and every change event store [mq.matches]. *)
Definition useMediaQuery (query : Query) (viewport : option Q) : bool :=
  match viewport with
  | None => false
  | Some width => matchMedia query width
  end.

(** The three flags of [App]; [viewport] is [None] on the first render,
    before the effects have run. *)
Definition isMobile (viewport : option Q) : bool :=
  useMediaQuery mobileQuery viewport.
Definition isTablet (viewport : option Q) : bool :=
  useMediaQuery tabletQuery viewport.
Definition isDesktop (viewport : option Q) : bool :=
  useMediaQuery desktopQuery viewport.

Inductive NavStyle := TextNav | IconNav.

(** [isDesktop ? <text nav> : <icon nav>] *)
Definition navStyle (viewport : option Q) : NavStyle :=
  if isDesktop viewport then TextNav else IconNav.

(** [!isMobile && <button>About Us</button>] on the Home card. *)
Definition aboutUsShown (viewport : option Q) : bool :=
  negb (isMobile viewport).

End Media.

(** ** Timers of the simulation path (lines 119-123) *)

Module Simulation.

Import ContactForm.
Local Open Scope js_scope.

(** The callbacks a log has handed to [setTimeout], in order. *)
Definition timers (tr : list Effect) : list Callback :=
  flat_map (fun e => match e with
                     | SetTimeout callback _ => [callback]
                     | _ => []
                     end) tr.

Fixpoint fire_all (callbacks : list Callback) : M unit :=
  match callbacks with
  | [] => ret tt
  | callback :: rest => fire callback ;; fire_all rest
  end.

(** A submission followed by its timers firing, [formRef.current] being
    [later] by then. *)
Definition submit_and_settle (env : Env) (st : Component.State)
    (out : Outside) (mounted later : option Form) : list Effect :=
  let tr := submit env st out mounted in
  log (snd (fire_all (timers tr) {| formRef := later; log := tr |})).

End Simulation.

(** ** Sample deployments and submissions *)

Module Samples.

Import ContactForm.

(** A deployment with the three required values set. *)
Definition configured (reply : option string) (host : string) : Env :=
  {| VITE_EMAILJS_SERVICE_ID := Some "service_hpc";
     VITE_EMAILJS_TEMPLATE_ID := Some "template_contact";
     VITE_EMAILJS_PUBLIC_KEY := Some "pk_live";
     VITE_EMAILJS_REPLY_TEMPLATE_ID := reply;
     VITE_REPLY_EMAIL := None;
     hostname := Some host |}.

(** The same deployment without its template identifier. *)
Definition unconfigured (host : string) : Env :=
  {| VITE_EMAILJS_SERVICE_ID := Some "service_hpc";
     VITE_EMAILJS_TEMPLATE_ID := None;
     VITE_EMAILJS_PUBLIC_KEY := Some "pk_live";
     VITE_EMAILJS_REPLY_TEMPLATE_ID := None;
     VITE_REPLY_EMAIL := None;
     hostname := Some host |}.

(** The component after the visitor opened [/contact] and typed a name
    and an address. *)
Definition filled : Component.State :=
  Component.setUserEmail "juan@example.com"
    (Component.setUserName "Juan Dela Cruz"
       (Component.step (Component.initial "/contact")
                       (Component.RunEffects true false))).

Definition filledForm : Form :=
  {| form_name := "Juan Dela Cruz";
     form_email := "juan@example.com";
     form_phone := "";
     form_message := "Hello" |}.

(** A counter whose target is not a whole number. *)
Definition fractional : Counter.Props :=
  {| Counter.target := 5 # 2; Counter.duration := Counter.defaultDuration |}.

Definition outcome (primary unmounted reply : bool) : Outside :=
  {| sendForm_resolves := primary;
     unmounted_during_await := unmounted;
     send_resolves := reply |}.

End Samples.

(** * Properties *)

(** ** Routing *)

Section RoutingFacts.

Import Routing.

Lemma toSection_cases (p : string) :
  toSection p = "Home" \/ toSection p = "Highlights"
  \/ toSection p = "About" \/ toSection p = "Contact".
Proof.
  unfold toSection.
  repeat match goal with
         | |- context [String.eqb p ?c] => destruct (String.eqb p c)
         end; auto.
Qed.

Lemma toSection_in_navItems (p : string) : In (toSection p) navItems.
Proof.
  unfold navItems.
  destruct (toSection_cases p) as [E | [E | [E | E]]]; rewrite E;
    simpl; auto.
Qed.

(** C1: on the four sections and the four paths [toPath] and
    [toSection] are inverse to each other, and [toPath] sends the
    sections, in order, to [/], [/highlights], [/about], [/contact]. *)
Theorem toPath_toSection_inverse :
  Forall (fun s => toSection (toPath s) = s) navItems
  /\ Forall (fun p => toPath (toSection p) = p) sitePaths
  /\ map toPath navItems = sitePaths.
Proof.
  repeat split; repeat constructor.
Qed.

(** C9: every pathname other than [/highlights], [/about] and
    [/contact] is mapped to the Home section, so [toSection] never
    fails on an unknown path or on the alias [/home]. *)
Theorem toSection_defaults_to_Home (p : string)
    (Hh : p <> "/highlights") (Ha : p <> "/about") (Hc : p <> "/contact") :
  toSection p = "Home".
Proof.
  unfold toSection.
  apply String.eqb_neq in Hh, Ha, Hc.
  rewrite Hh, Ha, Hc.
  destruct (String.eqb p "/"), (String.eqb p "/home"); reflexivity.
Qed.

Lemma toSection_defaults_to_Home_witness :
  "/home" <> "/highlights" /\ "/home" <> "/about" /\ "/home" <> "/contact"
  /\ toSection "/home" = "Home"
  /\ toSection "/no/such/page" = "Home".
Proof.
  split; [discriminate|].
  split; [discriminate|].
  split; [discriminate|].
  split; apply toSection_defaults_to_Home; discriminate.
Defined.

End RoutingFacts.

(** ** Component state *)

Section ComponentFacts.

Import Routing Content Component.
Local Open Scope Z_scope.

Lemma heroCount_value : heroCount = 4.
Proof. reflexivity. Qed.

(** The identifiers of the fixed list are pairwise distinct, so looking
    one up returns the event it came from. *)
Lemma find_event_id (e : Event) :
  In e highlightsEvents -> find_event (id e) = Some e.
Proof.
  intros H. unfold highlightsEvents in H. simpl in H.
  destruct H as [<- | [<- | [<- | [<- | []]]]]; reflexivity.
Qed.

Lemma event_id_nonzero (e : Event) :
  In e highlightsEvents -> Js.truthy_number (Some (id e)) = true.
Proof.
  intros H. unfold highlightsEvents in H. simpl in H.
  destruct H as [<- | [<- | [<- | [<- | []]]]]; reflexivity.
Qed.

(** *** The hero carousel *)

Lemma nextHero_mod (i : Z) :
  0 <= i < heroCount -> nextHero i = (i + 1) mod heroCount.
Proof.
  intros H. unfold nextHero. change heroCount with 4 in *.
  apply Z.rem_mod_nonneg; lia.
Qed.

Lemma nextHero_range (i : Z) :
  0 <= i < heroCount -> 0 <= nextHero i < heroCount.
Proof.
  intros H. rewrite nextHero_mod by assumption.
  change heroCount with 4 in *. apply Z.mod_pos_bound. lia.
Qed.

Lemma sectionFromUrl_hero (snap st : State) :
  currentHeroIndex (sectionFromUrl snap st) = currentHeroIndex st.
Proof.
  unfold sectionFromUrl.
  destruct (String.eqb _ _); reflexivity.
Qed.

Lemma urlFromSection_hero (snap st : State) :
  currentHeroIndex (urlFromSection snap st) = currentHeroIndex st.
Proof.
  unfold urlFromSection.
  destruct (String.eqb _ _); reflexivity.
Qed.

Lemma step_hero_ok (st : State) (a : Action) :
  offered a -> hero_ok st -> hero_ok (step st a).
Proof.
  unfold hero_ok. intros Ha Hst.
  destruct a; simpl in *; try assumption.
  - destruct pathChanged, sectionChanged;
      rewrite ?urlFromSection_hero, ?sectionFromUrl_hero; assumption.
  - apply nextHero_range. assumption.
  - apply Ha.
Qed.

Lemma reachable_hero_ok (st : State) : reachable st -> hero_ok st.
Proof.
  induction 1 as [p | st a Hr IH Ha].
  - unfold hero_ok. simpl. change heroCount with 4. lia.
  - apply step_hero_ok; assumption.
Qed.

(** C3: the hero index starts at 0; in every reachable state it is a
    valid index into [heroImages]; an interval tick replaces it by its
    successor modulo [heroImages.length], that is by [i + 1] below the
    last index and by 0 at the last index; and a dot button stores the
    index of an existing image. *)
Theorem hero_index_valid (st : State) (Hreach : reachable st) :
  (forall p, currentHeroIndex (initial p) = 0)
  /\ 0 <= currentHeroIndex st < Z.of_nat (length heroImages)
  /\ (exists src,
        nth_error heroImages (Z.to_nat (currentHeroIndex st)) = Some src)
  /\ currentHeroIndex (step st HeroTick)
     = (currentHeroIndex st + 1) mod Z.of_nat (length heroImages)
  /\ (currentHeroIndex st < Z.of_nat (length heroImages) - 1 ->
      currentHeroIndex (step st HeroTick) = currentHeroIndex st + 1)
  /\ (currentHeroIndex st = Z.of_nat (length heroImages) - 1 ->
      currentHeroIndex (step st HeroTick) = 0)
  /\ (forall i, offered (DotClick i) ->
        currentHeroIndex (step st (DotClick i)) = i
        /\ 0 <= i < Z.of_nat (length heroImages)).
Proof.
  pose proof (reachable_hero_ok st Hreach) as Hok. unfold hero_ok in Hok.
  fold heroCount.
  assert (Htick : currentHeroIndex (step st HeroTick)
                  = (currentHeroIndex st + 1) mod heroCount).
  { simpl. apply nextHero_mod. assumption. }
  split; [reflexivity|].
  split; [assumption|].
  split.
  { destruct (nth_error heroImages (Z.to_nat (currentHeroIndex st)))
      as [src|] eqn:E; [now exists src|].
    apply nth_error_None in E. unfold heroCount in Hok. lia. }
  split; [assumption|].
  split.
  { intros Hlt. rewrite Htick. apply Z.mod_small. lia. }
  split.
  { intros Hlast. rewrite Htick, Hlast.
    replace (heroCount - 1 + 1) with heroCount by lia.
    apply Z.mod_same. change heroCount with 4. lia. }
  intros i [_ Hi]. split; [reflexivity | assumption].
Qed.

Lemma hero_index_valid_witness :
  reachable (step (step (step (step (initial "/") HeroTick) HeroTick)
                        HeroTick) HeroTick)
  /\ currentHeroIndex
       (step (step (step (step (initial "/") HeroTick) HeroTick)
                   HeroTick) HeroTick) = 0
  /\ currentHeroIndex
       (step (step (step (initial "/") HeroTick) HeroTick) HeroTick) = 3.
Proof.
  assert (R3 : reachable
                 (step (step (step (initial "/") HeroTick) HeroTick)
                       HeroTick)).
  { repeat (apply reach_step; [| exact I]). apply reach_mount. }
  split; [apply reach_step; [exact R3 | exact I]|].
  split; [| reflexivity].
  destruct (hero_index_valid _ R3) as (_ & _ & _ & _ & _ & Hwrap & _).
  apply Hwrap. reflexivity.
Defined.

(** *** Event selection *)

(** C7: with [selectedEventId] set to the identifier of an event of the
    fixed list, [renderSection] is the detail view of exactly that
    event; with [selectedEventId] cleared it is the view of the active
    section (the list of all events for Highlights) and never a detail
    view. *)
Theorem renderSection_selected_event (st : State) (e : Event)
    (He : In e highlightsEvents) :
  find_event (id e) = Some e
  /\ renderSection (setSelectedEventId (Some (id e)) st)
     = renderEventDetail e
  /\ renderSection (step st (ExploreClick e)) = renderEventDetail e
  /\ (forall ev,
        renderSection (setSelectedEventId None st) <> renderEventDetail ev)
  /\ renderSection (step (step st (ExploreClick e)) BackClick)
     = renderSection (setSelectedEventId None st)
  /\ (activeSection st = "Home"%string ->
      renderSection (setSelectedEventId None st)
      = HomeView (heroSrc (currentHeroIndex st))
                 (currentHeroIndex st + 1) heroDots)
  /\ (activeSection st = "Highlights"%string ->
      renderSection (setSelectedEventId None st)
      = HighlightsView highlightsEvents)
  /\ (activeSection st = "About"%string ->
      renderSection (setSelectedEventId None st) = AboutView)
  /\ (activeSection st = "Contact"%string ->
      renderSection (setSelectedEventId None st)
      = ContactView (userName st) (userEmail st) (userPhone st)).
Proof.
  assert (Hsel : renderSection (setSelectedEventId (Some (id e)) st)
                 = renderEventDetail e).
  { unfold renderSection. cbn [selectedEventId setSelectedEventId].
    rewrite (event_id_nonzero e He), (find_event_id e He). reflexivity. }
  split; [apply find_event_id; assumption|].
  split; [exact Hsel|].
  split; [exact Hsel|].
  split.
  { intros ev. unfold renderSection, renderEventDetail.
    cbn [selectedEventId setSelectedEventId Js.truthy_number activeSection].
    repeat match goal with
           | |- context [String.eqb ?a ?b] => destruct (String.eqb a b)
           end; discriminate. }
  split; [reflexivity|].
  repeat split; intros Hs; unfold renderSection;
    cbn [selectedEventId setSelectedEventId Js.truthy_number activeSection
         currentHeroIndex userName userEmail userPhone];
    rewrite Hs; reflexivity.
Qed.

Lemma renderSection_selected_event_witness :
  In event3 highlightsEvents
  /\ renderSection (setSelectedEventId (Some 3) (initial "/highlights"))
     = EventDetailView event3.
Proof.
  assert (He : In event3 highlightsEvents).
  { right. right. left. reflexivity. }
  split; [exact He|].
  destruct (renderSection_selected_event (initial "/highlights") event3 He)
    as (_ & Hsel & _).
  exact Hsel.
Defined.

(** *** State invariants *)

Lemma sectionFromUrl_cases (snap st : State) :
  sectionFromUrl snap st = st
  \/ sectionFromUrl snap st = setActiveSection (toSection (pathname snap)) st.
Proof.
  unfold sectionFromUrl. destruct (String.eqb _ _); auto.
Qed.

Lemma urlFromSection_keeps (snap st : State) :
  activeSection (urlFromSection snap st) = activeSection st
  /\ selectedEventId (urlFromSection snap st) = selectedEventId st.
Proof.
  unfold urlFromSection. destruct (String.eqb _ _); split; reflexivity.
Qed.

Lemma sectionFromUrl_invariants (snap st : State) :
  selection_ok st -> section_ok st ->
  selection_ok (sectionFromUrl snap st) /\ section_ok (sectionFromUrl snap st).
Proof.
  intros Hsel Hsec.
  destruct (sectionFromUrl_cases snap st) as [-> | ->]; [now split|].
  split; [exact Hsel|].
  unfold section_ok. simpl. apply toSection_in_navItems.
Qed.

Lemma urlFromSection_invariants (snap st : State) :
  selection_ok st -> section_ok st ->
  selection_ok (urlFromSection snap st) /\ section_ok (urlFromSection snap st).
Proof.
  intros Hsel Hsec.
  destruct (urlFromSection_keeps snap st) as [Ea Es].
  unfold selection_ok, section_ok. rewrite Ea, Es. now split.
Qed.

Lemma step_invariants (st : State) (a : Action) :
  offered a -> selection_ok st -> section_ok st ->
  selection_ok (step st a) /\ section_ok (step st a).
Proof.
  intros Ha Hsel Hsec.
  destruct a; simpl in Ha; cbn [step];
    try (split; [exact Hsel | exact Hsec]).
  - split; [intros n Hn; discriminate Hn | exact Ha].
  - split; [exact Hsel|]. unfold section_ok, navItems. simpl. auto.
  - split; [| exact Hsec].
    intros n Hn. simpl in Hn. injection Hn as <-. now exists event.
  - split; [intros n Hn; discriminate Hn | exact Hsec].
  - destruct pathChanged, sectionChanged.
    + destruct (sectionFromUrl_invariants st st Hsel Hsec) as [H1 H2].
      apply urlFromSection_invariants; assumption.
    + apply sectionFromUrl_invariants; assumption.
    + apply urlFromSection_invariants; assumption.
    + now split.
Qed.

Lemma initial_invariants (p : string) :
  selection_ok (initial p) /\ section_ok (initial p).
Proof.
  split.
  - intros n Hn. discriminate Hn.
  - unfold section_ok, navItems. simpl. auto.
Qed.

Lemma reachable_invariants (st : State) :
  reachable st -> selection_ok st /\ section_ok st.
Proof.
  induction 1 as [p | st a Hr [IHsel IHsec] Ha].
  - apply initial_invariants.
  - apply step_invariants; assumption.
Qed.

(** C8: every transition of the component (a nav button, the About Us
    button, an explore button, the back button, a location change, the
    two URL-synchronisation effects, a carousel tick or dot, a field
    edit) keeps both invariants: a selected identifier is the [id] of an
    event of the fixed list, and the active section is one of Home,
    Highlights, About, Contact.  Both hold at mount as well. *)
Theorem transitions_preserve_invariants (st : State) (a : Action)
    (Ha : offered a) (Hsel : selection_ok st) (Hsec : section_ok st) :
  (selection_ok (step st a) /\ section_ok (step st a))
  /\ (forall p, selection_ok (initial p) /\ section_ok (initial p)).
Proof.
  split.
  - apply step_invariants; assumption.
  - apply initial_invariants.
Qed.

Lemma transitions_preserve_invariants_witness :
  offered (ExploreClick event2)
  /\ selection_ok (initial "/about")
  /\ section_ok (initial "/about")
  /\ selection_ok (step (initial "/about") (ExploreClick event2))
  /\ section_ok (step (initial "/about") (ExploreClick event2)).
Proof.
  assert (Ha : offered (ExploreClick event2)).
  { right. left. reflexivity. }
  assert (Hsel : selection_ok (initial "/about")).
  { intros n Hn. discriminate Hn. }
  assert (Hsec : section_ok (initial "/about")).
  { left. reflexivity. }
  split; [exact Ha|].
  split; [exact Hsel|].
  split; [exact Hsec|].
  destruct (transitions_preserve_invariants _ _ Ha Hsel Hsec) as [H _].
  exact H.
Defined.

End ComponentFacts.


(** ** The contact form *)

Section ContactFormPaths.

Import ContactForm.

Variables (env : Env) (st : Component.State) (out : Outside) (form : Form).

Lemma absent_is_missing :
  VITE_EMAILJS_SERVICE_ID env = None
  \/ VITE_EMAILJS_TEMPLATE_ID env = None
  \/ VITE_EMAILJS_PUBLIC_KEY env = None ->
  configMissing env = true.
Proof.
  unfold configMissing. intros [E | [E | E]]; rewrite E; simpl;
    repeat rewrite ?orb_true_r, ?orb_true_l; reflexivity.
Qed.

Lemma present_is_not_missing :
  Js.truthy (VITE_EMAILJS_SERVICE_ID env) = true ->
  Js.truthy (VITE_EMAILJS_TEMPLATE_ID env) = true ->
  Js.truthy (VITE_EMAILJS_PUBLIC_KEY env) = true ->
  configMissing env = false.
Proof.
  unfold configMissing. intros -> -> ->. reflexivity.
Qed.

Lemma remote_host_not_local :
  hostname env <> Some "localhost" ->
  hostname env <> Some "127.0.0.1" ->
  isLocalHost env = false.
Proof.
  unfold isLocalHost. intros H1 H2.
  destruct (hostname env) as [h|]; [| reflexivity].
  apply orb_false_iff. split; apply String.eqb_neq; congruence.
Qed.

(** The log of a submission from a mounted form, path by path. *)

Lemma submit_unconfigured_remote :
  configMissing env = true -> isLocalHost env = false ->
  submit env st out (Some form)
  = [PreventDefault;
     Console Error "Missing EmailJS configuration";
     Alert "Email service is not configured. Please try again later."].
Proof.
  unfold submit, handleSubmit. intros Hg Hl.
  cbn [bind emit current formRef log snd app].
  rewrite Hg. cbn [bind emit formRef log snd app].
  rewrite Hl. reflexivity.
Qed.

Lemma submit_unconfigured_local :
  configMissing env = true -> isLocalHost env = true ->
  submit env st out (Some form)
  = [PreventDefault;
     Console Error "Missing EmailJS configuration";
     Console Warn "Simulating email send on localhost.";
     SetTimeout SimulatedSend 700].
Proof.
  unfold submit, handleSubmit. intros Hg Hl.
  cbn [bind emit current formRef log snd app].
  rewrite Hg. cbn [bind emit formRef log snd app].
  rewrite Hl. reflexivity.
Qed.

Lemma submit_rejected :
  configMissing env = false -> sendForm_resolves out = false ->
  submit env st out (Some form)
  = [PreventDefault;
     SendForm (text (VITE_EMAILJS_SERVICE_ID env))
              (text (VITE_EMAILJS_TEMPLATE_ID env)) form
              (text (VITE_EMAILJS_PUBLIC_KEY env));
     Console Error "EmailJS send error:";
     Alert "Failed to send message. Please try again later."].
Proof.
  unfold submit, handleSubmit, try_catch, await_sendForm.
  intros Hg Hr.
  cbn [bind emit current formRef log snd app].
  rewrite Hg. cbn. rewrite Hr. reflexivity.
Qed.

Lemma submit_resolved_unmounted :
  configMissing env = false -> sendForm_resolves out = true ->
  unmounted_during_await out = true ->
  submit env st out (Some form)
  = [PreventDefault;
     SendForm (text (VITE_EMAILJS_SERVICE_ID env))
              (text (VITE_EMAILJS_TEMPLATE_ID env)) form
              (text (VITE_EMAILJS_PUBLIC_KEY env));
     Alert "Message sent successfully!";
     Console Error "EmailJS send error:";
     Alert "Failed to send message. Please try again later."].
Proof.
  unfold submit, handleSubmit, try_catch, await_sendForm.
  intros Hg Hr Hu.
  cbn [bind emit current formRef log snd app].
  rewrite Hg. cbn. rewrite Hr. cbn. rewrite Hu. reflexivity.
Qed.

Lemma submit_resolved_mounted :
  configMissing env = false -> sendForm_resolves out = true ->
  unmounted_during_await out = false ->
  submit env st out (Some form)
  = ([PreventDefault;
      SendForm (text (VITE_EMAILJS_SERVICE_ID env))
               (text (VITE_EMAILJS_TEMPLATE_ID env)) form
               (text (VITE_EMAILJS_PUBLIC_KEY env));
      Alert "Message sent successfully!";
      FormReset]
     ++ (if wantsReply env st
         then [Send (text (VITE_EMAILJS_SERVICE_ID env))
                    (text (VITE_EMAILJS_REPLY_TEMPLATE_ID env))
                    (replyParams env st)
                    (text (VITE_EMAILJS_PUBLIC_KEY env));
               if send_resolves out
               then Console Log "Auto-reply sent to"
               else Console Warn "Auto-reply failed:"]
         else []))%list.
Proof.
  unfold submit, handleSubmit, try_catch, await_sendForm.
  intros Hg Hr Hu.
  cbn [bind emit current formRef log snd app].
  rewrite Hg. cbn. rewrite Hr. cbn. rewrite Hu. cbn.
  destruct (wantsReply env st); cbn;
    [destruct (send_resolves out)|]; reflexivity.
Qed.

Lemma submit_detached :
  submit env st out None = [PreventDefault].
Proof. reflexivity. Qed.

End ContactFormPaths.

Section ContactFormClaims.

Import ContactForm Samples.

(** C2: a submission from the mounted form with the service identifier,
    the template identifier or the public key absent, on a host that is
    neither [localhost] nor [127.0.0.1], logs the problem, shows the
    configuration-missing alert and nothing else, and calls neither
    [emailjs.sendForm] nor [emailjs.send]; no network call is made
    whatever [formRef.current] holds. *)
Theorem missing_config_shows_alert_without_network
    (env : Env) (st : Component.State) (out : Outside) (form : Form)
    (Habsent : VITE_EMAILJS_SERVICE_ID env = None
               \/ VITE_EMAILJS_TEMPLATE_ID env = None
               \/ VITE_EMAILJS_PUBLIC_KEY env = None)
    (Hlocalhost : hostname env <> Some "localhost")
    (Hloopback : hostname env <> Some "127.0.0.1") :
  submit env st out (Some form)
  = [PreventDefault;
     Console Error "Missing EmailJS configuration";
     Alert "Email service is not configured. Please try again later."]
  /\ visible (submit env st out (Some form))
     = [Alert "Email service is not configured. Please try again later."]
  /\ network (submit env st out (Some form)) = []
  /\ (forall mounted, network (submit env st out mounted) = []).
Proof.
  pose proof (absent_is_missing env Habsent) as Hmissing.
  pose proof (remote_host_not_local env Hlocalhost Hloopback) as Hremote.
  rewrite (submit_unconfigured_remote env st out form Hmissing Hremote).
  repeat split.
  intros [f |]; [| reflexivity].
  rewrite (submit_unconfigured_remote env st out f Hmissing Hremote).
  reflexivity.
Qed.

Lemma missing_config_shows_alert_without_network_witness :
  VITE_EMAILJS_TEMPLATE_ID (unconfigured "harmonia.example.org") = None
  /\ hostname (unconfigured "harmonia.example.org") <> Some "localhost"
  /\ hostname (unconfigured "harmonia.example.org") <> Some "127.0.0.1"
  /\ network (submit (unconfigured "harmonia.example.org") filled
                     (outcome true false true) (Some filledForm)) = [].
Proof.
  assert (Ha : VITE_EMAILJS_SERVICE_ID (unconfigured "harmonia.example.org")
               = None
               \/ VITE_EMAILJS_TEMPLATE_ID (unconfigured "harmonia.example.org")
                  = None
               \/ VITE_EMAILJS_PUBLIC_KEY (unconfigured "harmonia.example.org")
                  = None).
  { right. left. reflexivity. }
  assert (H1 : hostname (unconfigured "harmonia.example.org")
               <> Some "localhost") by discriminate.
  assert (H2 : hostname (unconfigured "harmonia.example.org")
               <> Some "127.0.0.1") by discriminate.
  split; [reflexivity|].
  split; [exact H1|].
  split; [exact H2|].
  destruct (missing_config_shows_alert_without_network
              (unconfigured "harmonia.example.org") filled
              (outcome true false true) filledForm Ha H1 H2)
    as (_ & _ & Hnet & _).
  exact Hnet.
Defined.

(** C6: a submission from the mounted form with the three configuration
    values present whose [emailjs.sendForm] promise rejects does exactly
    this: one [sendForm] call, the error log, the generic failure alert.
    So there is a single delivery attempt and no other network call, no
    acknowledgement send, no form reset, and no effect that would store
    the message. *)
Theorem delivery_failure_alerts_once
    (env : Env) (st : Component.State) (out : Outside) (form : Form)
    (Hservice : Js.truthy (VITE_EMAILJS_SERVICE_ID env) = true)
    (Htemplate : Js.truthy (VITE_EMAILJS_TEMPLATE_ID env) = true)
    (Hkey : Js.truthy (VITE_EMAILJS_PUBLIC_KEY env) = true)
    (Hfails : sendForm_resolves out = false) :
  submit env st out (Some form)
  = [PreventDefault;
     SendForm (text (VITE_EMAILJS_SERVICE_ID env))
              (text (VITE_EMAILJS_TEMPLATE_ID env)) form
              (text (VITE_EMAILJS_PUBLIC_KEY env));
     Console Error "EmailJS send error:";
     Alert "Failed to send message. Please try again later."]
  /\ visible (submit env st out (Some form))
     = [Alert "Failed to send message. Please try again later."]
  /\ network (submit env st out (Some form))
     = [SendForm (text (VITE_EMAILJS_SERVICE_ID env))
                 (text (VITE_EMAILJS_TEMPLATE_ID env)) form
                 (text (VITE_EMAILJS_PUBLIC_KEY env))]
  /\ acks (submit env st out (Some form)) = []
  /\ ~ In FormReset (submit env st out (Some form)).
Proof.
  rewrite (submit_rejected env st out form
             (present_is_not_missing env Hservice Htemplate Hkey) Hfails).
  repeat split.
  intros [H | [H | [H | [H | []]]]]; discriminate H.
Qed.

Lemma delivery_failure_alerts_once_witness :
  Js.truthy (VITE_EMAILJS_SERVICE_ID
               (configured (Some "template_reply") "harmonia.example.org"))
  = true
  /\ Js.truthy (VITE_EMAILJS_TEMPLATE_ID
                  (configured (Some "template_reply")
                              "harmonia.example.org")) = true
  /\ Js.truthy (VITE_EMAILJS_PUBLIC_KEY
                  (configured (Some "template_reply")
                              "harmonia.example.org")) = true
  /\ sendForm_resolves (outcome false false true) = false
  /\ visible (submit (configured (Some "template_reply")
                                 "harmonia.example.org")
                     filled (outcome false false true) (Some filledForm))
     = [Alert "Failed to send message. Please try again later."].
Proof.
  split; [reflexivity|].
  split; [reflexivity|].
  split; [reflexivity|].
  split; [reflexivity|].
  destruct (delivery_failure_alerts_once
              (configured (Some "template_reply") "harmonia.example.org")
              filled (outcome false false true) filledForm
              eq_refl eq_refl eq_refl eq_refl) as (_ & Hvis & _).
  exact Hvis.
Defined.

(** C10, on the code: the three conditions of the acknowledgement hold
    (the primary call resolved, a reply template is configured, the
    sender's address is not empty), yet no acknowledgement is sent when
    the form was unmounted while the handler awaited the provider:
    [formRef.current.reset()] throws, the [catch] block runs, and the
    user is shown the failure alert after the success alert. *)
Theorem acknowledgement_skipped_after_unmount :
  Js.truthy (VITE_EMAILJS_REPLY_TEMPLATE_ID
               (configured (Some "template_reply") "harmonia.example.org"))
  = true
  /\ Js.truthy_string (Component.userEmail filled) = true
  /\ sendForm_resolves (outcome true true true) = true
  /\ submit (configured (Some "template_reply") "harmonia.example.org")
            filled (outcome true true true) (Some filledForm)
     = [PreventDefault;
        SendForm "service_hpc" "template_contact" filledForm "pk_live";
        Alert "Message sent successfully!";
        Console Error "EmailJS send error:";
        Alert "Failed to send message. Please try again later."]
  /\ acks (submit (configured (Some "template_reply")
                              "harmonia.example.org")
                  filled (outcome true true true) (Some filledForm)) = [].
Proof.
  repeat split.
Qed.

(** The simulation path of the same handler clears the form with
    [formRef.current?.reset()], which tolerates a detached ref. *)
Lemma simulated_send_tolerates_unmount :
  log (snd (fire SimulatedSend {| formRef := None; log := [] |}))
  = [Alert "Simulated: Message sent!"]
  /\ fst (fire SimulatedSend {| formRef := None; log := [] |}) = inr tt.
Proof. split; reflexivity. Qed.

(** X18: while the form stays mounted the acknowledgement is sent exactly
    when the primary call resolved, a reply template is configured and
    the sender's address is not empty. *)
Lemma acknowledgement_iff_when_mounted
    (env : Env) (st : Component.State) (out : Outside) (form : Form)
    (Hconfig : configMissing env = false)
    (Hmounted : unmounted_during_await out = false) :
  acks (submit env st out (Some form)) <> []
  <-> sendForm_resolves out = true
      /\ Js.truthy (VITE_EMAILJS_REPLY_TEMPLATE_ID env) = true
      /\ Js.truthy_string (Component.userEmail st) = true.
Proof.
  destruct (sendForm_resolves out) eqn:Hr.
  - rewrite (submit_resolved_mounted env st out form Hconfig Hr Hmounted).
    unfold wantsReply.
    destruct (Js.truthy (VITE_EMAILJS_REPLY_TEMPLATE_ID env)),
             (Js.truthy_string (Component.userEmail st)); cbn;
      try destruct (send_resolves out); cbn;
      split; try discriminate; try tauto; intros (_ & ? & ?); discriminate.
  - rewrite (submit_rejected env st out form Hconfig Hr). cbn.
    split; [tauto | intros (? & _); discriminate].
Qed.

(** X19: whatever happens to the form, the acknowledgement is never sent
    without a resolved primary call, a configured reply template and a
    sender address. *)
Lemma acknowledgement_only_if
    (env : Env) (st : Component.State) (out : Outside)
    (mounted : option Form) :
  acks (submit env st out mounted) <> [] ->
  sendForm_resolves out = true
  /\ Js.truthy (VITE_EMAILJS_REPLY_TEMPLATE_ID env) = true
  /\ Js.truthy_string (Component.userEmail st) = true.
Proof.
  destruct mounted as [form|]; [| intros H; now elim H].
  destruct (configMissing env) eqn:Hg.
  - destruct (isLocalHost env) eqn:Hl.
    + rewrite (submit_unconfigured_local env st out form Hg Hl).
      intros H; now elim H.
    + rewrite (submit_unconfigured_remote env st out form Hg Hl).
      intros H; now elim H.
  - destruct (sendForm_resolves out) eqn:Hr.
    + destruct (unmounted_during_await out) eqn:Hu.
      * rewrite (submit_resolved_unmounted env st out form Hg Hr Hu).
        intros H; now elim H.
      * rewrite (submit_resolved_mounted env st out form Hg Hr Hu).
        unfold wantsReply.
        destruct (Js.truthy (VITE_EMAILJS_REPLY_TEMPLATE_ID env)),
                 (Js.truthy_string (Component.userEmail st)); cbn;
          intros H; try (now elim H); auto.
    + rewrite (submit_rejected env st out form Hg Hr).
      intros H; now elim H.
Qed.

(** X20: whether the acknowledgement promise resolves or rejects changes
    nothing the user sees. *)
Lemma acknowledgement_outcome_invisible
    (env : Env) (st : Component.State) (mounted : option Form)
    (primary unmounted r1 r2 : bool) :
  visible (submit env st (outcome primary unmounted r1) mounted)
  = visible (submit env st (outcome primary unmounted r2) mounted).
Proof.
  destruct mounted as [form|]; [| reflexivity].
  destruct (configMissing env) eqn:Hg.
  - destruct (isLocalHost env) eqn:Hl.
    + now rewrite 2 (submit_unconfigured_local env st _ form Hg Hl).
    + now rewrite 2 (submit_unconfigured_remote env st _ form Hg Hl).
  - destruct primary.
    + destruct unmounted.
      * rewrite (submit_resolved_unmounted env st (outcome true true r1)
                   form Hg eq_refl eq_refl).
        rewrite (submit_resolved_unmounted env st (outcome true true r2)
                   form Hg eq_refl eq_refl).
        reflexivity.
      * rewrite (submit_resolved_mounted env st (outcome true false r1)
                   form Hg eq_refl eq_refl).
        rewrite (submit_resolved_mounted env st (outcome true false r2)
                   form Hg eq_refl eq_refl).
        cbn [send_resolves outcome].
        destruct (wantsReply env st); destruct r1, r2; reflexivity.
    + rewrite (submit_rejected env st (outcome false unmounted r1)
                 form Hg eq_refl).
      rewrite (submit_rejected env st (outcome false unmounted r2)
                 form Hg eq_refl).
      reflexivity.
Qed.

End ContactFormClaims.

(** ** The animated counter *)

Section CounterFacts.

Import Counter.
Local Open Scope Q_scope.

Variable p : Props.
Hypothesis duration_pos : 0 < duration p.

Lemma easeOutQuart_0 : easeOutQuart 0 == 0.
Proof. reflexivity. Qed.

Lemma easeOutQuart_1 : easeOutQuart 1 == 1.
Proof. reflexivity. Qed.

Lemma easeOutQuart_comp (u v : Q) :
  u == v -> easeOutQuart u == easeOutQuart v.
Proof. unfold easeOutQuart. intros ->. reflexivity. Qed.

(** The value shown for a given elapsed time. *)
Lemma count_animate (a : Anim) (t : Q) :
  count (animate p a t)
  = Qfloor (easeOutQuart (Qmin ((t - startOf a t) / duration p) 1)
            * target p).
Proof. reflexivity. Qed.

Lemma progress_le_1 (a : Anim) (t : Q) : progressAt p a t <= 1.
Proof. unfold progressAt. apply Q.le_min_r. Qed.

Lemma progress_full (a : Anim) (t : Q) :
  duration p <= t - startOf a t -> progressAt p a t == 1.
Proof.
  intros H. unfold progressAt. apply Q.min_r.
  apply Qle_shift_div_l; [assumption | lra].
Qed.

(** A frame at or past the full duration shows [Math.floor(target)] and
    requests no further frame. *)
Lemma animate_last_frame (a : Anim) (t : Q) :
  duration p <= t - startOf a t ->
  count (animate p a t) = Qfloor (target p)
  /\ scheduled (animate p a t) = false.
Proof.
  intros H. pose proof (progress_full a t H) as Hp.
  unfold animate. cbn [count scheduled]. split.
  - apply Qfloor_comp. rewrite (easeOutQuart_comp _ _ Hp), easeOutQuart_1.
    ring.
  - apply negb_false_iff, Qle_bool_iff. rewrite Hp. apply Qle_refl.
Qed.

(** Conversely a frame that requests no further frame is at full
    progress. *)
Lemma animate_stops_at_target (a : Anim) (t : Q) :
  scheduled (animate p a t) = false ->
  count (animate p a t) = Qfloor (target p).
Proof.
  unfold animate. cbn [count scheduled]. intros H.
  apply negb_false_iff, Qle_bool_iff in H.
  assert (Hp : progressAt p a t == 1).
  { apply Qle_antisym; [apply progress_le_1 | assumption]. }
  apply Qfloor_comp. rewrite (easeOutQuart_comp _ _ Hp), easeOutQuart_1.
  ring.
Qed.

Lemma frames_idle (a : Anim) (ts : list Q) :
  scheduled a = false -> frames p a ts = a.
Proof.
  intros H. destruct ts as [| t ts]; simpl; [| rewrite H]; reflexivity.
Qed.

Lemma frames_app (a : Anim) (ts1 ts2 : list Q) :
  frames p a (ts1 ++ ts2) = frames p (frames p a ts1) ts2.
Proof.
  revert a. induction ts1 as [| t ts1 IH]; intros a; simpl.
  - reflexivity.
  - destruct (scheduled a) eqn:E.
    + apply IH.
    + symmetry. apply frames_idle. assumption.
Qed.

(** Once no frame is requested, the shown value is [Math.floor(target)]. *)
Lemma frames_stopped (a : Anim) (ts : list Q) :
  (scheduled a = false -> count a = Qfloor (target p)) ->
  scheduled (frames p a ts) = false ->
  count (frames p a ts) = Qfloor (target p).
Proof.
  revert a. induction ts as [| t ts IH]; intros a Ha; simpl.
  - exact Ha.
  - destruct (scheduled a) eqn:E.
    + apply IH. apply animate_stops_at_target.
    + intros _. apply Ha. reflexivity.
Qed.

Lemma frames_reach_end (before later : list Q) (t : Q) :
  duration p <= t - startOf (frames p started before) t ->
  count (frames p started (before ++ t :: later)) = Qfloor (target p)
  /\ scheduled (frames p started (before ++ t :: later)) = false.
Proof.
  intros H. rewrite frames_app.
  destruct (scheduled (frames p started before)) eqn:E.
  - cbn [frames]. rewrite E.
    destruct (animate_last_frame _ t H) as [Hc Hs].
    rewrite (frames_idle _ later Hs). split; assumption.
  - rewrite (frames_idle _ (t :: later) E). split; [| assumption].
    apply frames_stopped; [discriminate | assumption].
Qed.

Lemma elapsed_first_frame (t : Q) : t - startOf started t == 0.
Proof. unfold startOf, started. cbn [startTime]. ring. Qed.

(** The first frame of a run shows 0. *)
Lemma animate_first_count (t : Q) :
  count (animate p started t) = 0%Z.
Proof.
  rewrite count_animate.
  assert (Hp : Qmin ((t - startOf started t) / duration p) 1 == 0).
  { rewrite elapsed_first_frame. unfold Qdiv. rewrite Qmult_0_l.
    apply Q.min_l. discriminate. }
  rewrite (Qfloor_comp _ 0); [reflexivity|].
  rewrite (easeOutQuart_comp _ _ Hp), easeOutQuart_0. ring.
Qed.

End CounterFacts.

Section CounterClaims.

Import Counter.
Local Open Scope Q_scope.

(** C4 as stated fails: with target 2.5 the frame that reaches the full
    duration shows 2 and requests no further frame. *)
Lemma counter_ends_below_fractional_target :
  duration Samples.fractional
  <= 3000 - startOf (frames Samples.fractional started [1000]) 3000
  /\ scheduled (frames Samples.fractional started [1000; 3000]) = false
  /\ count (frames Samples.fractional started [1000; 3000]) = 2%Z
  /\ ~ inject_Z (count (frames Samples.fractional started [1000; 3000]))
       == target Samples.fractional.
Proof.
  split; [apply Qle_bool_iff; reflexivity|].
  split; [reflexivity|].
  split; [reflexivity|].
  intros H. apply Qeq_bool_iff in H. discriminate H.
Qed.

(** C4, amended: for a positive duration, a run that receives a frame
    whose elapsed time reaches or exceeds the duration ends there: from
    that frame on the count is [Math.floor(target)], which is the target
    itself whenever the target is a whole number, and no further frame
    is requested. *)
Theorem counter_ends_at_floor_of_target
    (p : Props) (before later : list Q) (t : Q)
    (Hduration : 0 < duration p)
    (Hend : duration p <= t - startOf (frames p started before) t) :
  count (frames p started (before ++ t :: later)) = Qfloor (target p)
  /\ (forall n : Z, target p == inject_Z n ->
        count (frames p started (before ++ t :: later)) = n)
  /\ scheduled (frames p started (before ++ t :: later)) = false
  /\ (count (animate p (frames p started before) t) = Qfloor (target p)
      /\ scheduled (animate p (frames p started before) t) = false).
Proof.
  destruct (frames_reach_end p Hduration before later t Hend) as [Hc Hs].
  split; [exact Hc|].
  split.
  { intros n Hn. rewrite Hc, (Qfloor_comp _ _ Hn). apply Qfloor_Z. }
  split; [exact Hs|].
  apply animate_last_frame; assumption.
Qed.

Lemma counter_ends_at_floor_of_target_witness :
  0 < duration yearsPerforming
  /\ duration yearsPerforming
     <= 3000 - startOf (frames yearsPerforming started [1000; 1500]) 3000
  /\ count (frames yearsPerforming started
                   ([1000; 1500] ++ 3000 :: [3016])) = 20%Z.
Proof.
  assert (Hd : 0 < duration yearsPerforming) by reflexivity.
  assert (He : duration yearsPerforming
               <= 3000 - startOf (frames yearsPerforming started
                                         [1000; 1500]) 3000).
  { apply Qle_bool_iff. reflexivity. }
  split; [exact Hd|].
  split; [exact He|].
  destruct (counter_ends_at_floor_of_target
              yearsPerforming [1000; 1500] [3016] 3000 Hd He)
    as (_ & Hn & _).
  apply Hn. reflexivity.
Defined.




End CounterClaims.

(** * Further properties *)

(** ** Routing *)

Section RoutingExtras.

Import Routing.

Lemma toPath_cases (s : string) :
  toPath s = "/" \/ toPath s = "/highlights"
  \/ toPath s = "/about" \/ toPath s = "/contact".
Proof.
  unfold toPath.
  repeat match goal with
         | |- context [String.eqb s ?c] => destruct (String.eqb s c)
         end; auto.
Qed.

Lemma toPath_in_sitePaths (s : string) : In (toPath s) sitePaths.
Proof.
  unfold sitePaths.
  destruct (toPath_cases s) as [E | [E | [E | E]]]; rewrite E; simpl; auto.
Qed.

Lemma toPath_unknown (s : string) : ~ In s navItems -> toPath s = "/".
Proof.
  unfold navItems, toPath. simpl. intros H.
  destruct (String.eqb_spec s "Home") as [-> | _]; [reflexivity|].
  destruct (String.eqb_spec s "Highlights") as [-> | _]; [tauto|].
  destruct (String.eqb_spec s "About") as [-> | _]; [tauto|].
  destruct (String.eqb_spec s "Contact") as [-> | _]; [tauto|].
  reflexivity.
Qed.

(** X1: [toPath] is defined on every string: its result is always one of
    the four site paths, and a string that is not a section name is sent
    to [/]. *)
Theorem toPath_lands_on_site_paths (s : string) :
  In (toPath s) sitePaths
  /\ (~ In s navItems -> toPath s = "/")
  /\ (toPath s <> "/" -> In s navItems).
Proof.
  split; [apply toPath_in_sitePaths|].
  split; [apply toPath_unknown|].
  intros Hne.
  destruct (in_dec string_dec s navItems) as [Hin | Hout]; [assumption|].
  elim Hne. apply toPath_unknown. assumption.
Qed.

(** X2: the round trips hold on the documented values and nowhere else:
    [toPath (toSection p)] gives [p] back exactly for the four site paths
    (so [/home] and unknown paths are rewritten to [/]), and
    [toSection (toPath s)] gives [s] back exactly for the four section
    names. *)
Theorem round_trips_exactly_on_site_values (p s : string) :
  (toPath (toSection p) = p <-> In p sitePaths)
  /\ (toSection (toPath s) = s <-> In s navItems)
  /\ toSection (toPath (toSection p)) = toSection p
  /\ toPath (toSection (toPath s)) = toPath s.
Proof.
  split; [| split; [| split]].
  - split.
    + intros E. rewrite <- E. apply toPath_in_sitePaths.
    + unfold sitePaths. simpl.
      intros [<- | [<- | [<- | [<- | []]]]]; reflexivity.
  - split.
    + intros E. rewrite <- E. apply toSection_in_navItems.
    + unfold navItems. simpl.
      intros [<- | [<- | [<- | [<- | []]]]]; reflexivity.
  - destruct (toSection_cases p) as [E | [E | [E | E]]]; rewrite E;
      reflexivity.
  - destruct (toPath_cases s) as [E | [E | [E | E]]]; rewrite E;
      reflexivity.
Qed.

End RoutingExtras.

(** ** Navigation and rendering *)

Section ComponentExtras.

Import Routing Content Component Chrome.

Lemma renderSection_of_selection (st : State) (e : Event) :
  In e highlightsEvents -> selectedEventId st = Some (id e) ->
  renderSection st = renderEventDetail e.
Proof.
  intros He Hsel. unfold renderSection. rewrite Hsel.
  rewrite (event_id_nonzero e He), (find_event_id e He). reflexivity.
Qed.

Lemma find_event_sound (n : Z) (e : Event) :
  find_event n = Some e -> In e highlightsEvents /\ id e = n.
Proof.
  unfold find_event. intros H. apply find_some in H.
  destruct H as [Hin Hid]. split; [assumption|].
  apply Z.eqb_eq. assumption.
Qed.

Lemma section_cases (st : State) :
  section_ok st ->
  activeSection st = "Home" \/ activeSection st = "Highlights"
  \/ activeSection st = "About" \/ activeSection st = "Contact".
Proof.
  unfold section_ok, navItems. simpl.
  intros [H | [H | [H | [H | []]]]]; auto.
Qed.

Lemma sectionFromUrl_selection (snap st : State) :
  selectedEventId (sectionFromUrl snap st) = selectedEventId st.
Proof.
  unfold sectionFromUrl. destruct (String.eqb _ _); reflexivity.
Qed.

Lemma run_effects_selection (st : State) (b1 b2 : bool) :
  selectedEventId (step st (RunEffects b1 b2)) = selectedEventId st.
Proof.
  cbn [step]. destruct b1, b2;
    rewrite ?(proj2 (urlFromSection_keeps _ _)), ?sectionFromUrl_selection;
    reflexivity.
Qed.

(** X3: in every reachable state something is on screen: [renderSection]
    never takes the [default: return null] branch, and a detail view it
    shows is that of the event of the fixed list whose identifier is
    selected. *)
Theorem reachable_view_never_blank (st : State) (Hreach : reachable st) :
  renderSection st <> NullView
  /\ (forall e, renderSection st = EventDetailView e ->
        In e highlightsEvents /\ selectedEventId st = Some (id e)).
Proof.
  destruct (reachable_invariants st Hreach) as [Hsel Hsec].
  unfold renderSection.
  destruct (selectedEventId st) as [n|] eqn:En; cbn [Js.truthy_number].
  - destruct (negb (n =? 0)%Z).
    + destruct (find_event n) as [ev|] eqn:Ef.
      * split; [discriminate|].
        intros e He. injection He as <-.
        destruct (find_event_sound n ev Ef) as [Hin <-]. now split.
      * destruct (section_cases st Hsec) as [E | [E | [E | E]]]; rewrite E;
          cbn; split; try discriminate; intros e He; discriminate He.
    + destruct (section_cases st Hsec) as [E | [E | [E | E]]]; rewrite E;
        cbn; split; try discriminate; intros e He; discriminate He.
  - destruct (section_cases st Hsec) as [E | [E | [E | E]]]; rewrite E;
      cbn; split; try discriminate; intros e He; discriminate He.
Qed.

Lemma reachable_view_never_blank_witness :
  reachable (step (step (initial "/") (NavClick "Highlights"))
                  (ExploreClick event4))
  /\ renderSection (step (step (initial "/") (NavClick "Highlights"))
                         (ExploreClick event4)) <> NullView.
Proof.
  assert (R : reachable (step (step (initial "/") (NavClick "Highlights"))
                              (ExploreClick event4))).
  { apply reach_step.
    - apply reach_step; [apply reach_mount | right; left; reflexivity].
    - right. right. right. left. reflexivity. }
  split; [exact R|].
  destruct (reachable_view_never_blank _ R) as [H _]. exact H.
Defined.

(** X4: a nav button followed by the URL effect settles the component:
    the section is the one clicked, no event is selected (the view is not
    a detail view), the address is the path of that section, and running
    either synchronisation effect again changes nothing. *)
Theorem nav_click_settles (st : State) (name : string)
    (Hname : In name navItems) :
  activeSection (step (step st (NavClick name)) (RunEffects false true))
  = name
  /\ selectedEventId (step (step st (NavClick name)) (RunEffects false true))
     = None
  /\ pathname (step (step st (NavClick name)) (RunEffects false true))
     = toPath name
  /\ (forall b1 b2,
        step (step (step st (NavClick name)) (RunEffects false true))
             (RunEffects b1 b2)
        = step (step st (NavClick name)) (RunEffects false true))
  /\ (forall ev,
        renderSection (step (step st (NavClick name)) (RunEffects false true))
        <> renderEventDetail ev).
Proof.
  assert (Hrt : toSection (toPath name) = name).
  { unfold navItems in Hname. simpl in Hname.
    destruct Hname as [<- | [<- | [<- | [<- | []]]]]; reflexivity. }
  set (st2 := step (step st (NavClick name)) (RunEffects false true)).
  assert (Ha : activeSection st2 = name).
  { subst st2. cbn [step]. unfold urlFromSection.
    destruct (String.eqb _ _); reflexivity. }
  assert (Hs : selectedEventId st2 = None).
  { subst st2. cbn [step]. unfold urlFromSection.
    destruct (String.eqb _ _); reflexivity. }
  assert (Hp : pathname st2 = toPath name).
  { subst st2. cbn [step]. unfold urlFromSection.
    cbn [activeSection pathname setSelectedEventId setActiveSection].
    destruct (String.eqb_spec (pathname st) (toPath name)) as [E | _];
      [exact E | reflexivity]. }
  split; [exact Ha|]. split; [exact Hs|]. split; [exact Hp|].
  split.
  - intros b1 b2. cbn [step]. unfold sectionFromUrl, urlFromSection.
    rewrite Hp, Ha, Hrt, !String.eqb_refl. destruct b1, b2; reflexivity.
  - intros ev. unfold renderSection. rewrite Hs. cbn [Js.truthy_number].
    unfold renderEventDetail.
    repeat match goal with
           | |- context [String.eqb ?a ?b] => destruct (String.eqb a b)
           end; discriminate.
Qed.

Lemma nav_click_settles_witness :
  In "Contact" navItems
  /\ pathname (step (step (step (initial "/") (ExploreClick event1))
                          (NavClick "Contact")) (RunEffects false true))
     = "/contact".
Proof.
  assert (H : In "Contact" navItems).
  { right. right. right. left. reflexivity. }
  split; [exact H|].
  destruct (nav_click_settles (step (initial "/") (ExploreClick event1))
                              "Contact" H) as (_ & _ & Hp & _).
  exact Hp.
Defined.

(** X5: a location change followed by the section effect selects
    [toSection p] and leaves the selected event alone; once the URL
    effect has run as well the address is the canonical path of that
    section and further effect runs change nothing; for one of the four
    site paths the state is settled after the section effect already. *)
Theorem location_change_settles (st : State) (p : string) :
  activeSection (step (step st (LocationChange p)) (RunEffects true false))
  = toSection p
  /\ pathname (step (step st (LocationChange p)) (RunEffects true false)) = p
  /\ selectedEventId (step (step st (LocationChange p))
                           (RunEffects true false))
     = selectedEventId st
  /\ pathname (step (step (step st (LocationChange p))
                          (RunEffects true false)) (RunEffects false true))
     = toPath (toSection p)
  /\ (forall b1 b2,
        step (step (step (step st (LocationChange p)) (RunEffects true false))
                   (RunEffects false true)) (RunEffects b1 b2)
        = step (step (step st (LocationChange p)) (RunEffects true false))
               (RunEffects false true))
  /\ (In p sitePaths ->
      forall b1 b2,
        step (step (step st (LocationChange p)) (RunEffects true false))
             (RunEffects b1 b2)
        = step (step st (LocationChange p)) (RunEffects true false)).
Proof.
  set (st1 := step (step st (LocationChange p)) (RunEffects true false)).
  assert (Ha : activeSection st1 = toSection p).
  { subst st1. cbn [step]. unfold sectionFromUrl.
    cbn [pathname setPathname activeSection].
    destruct (String.eqb_spec (toSection p) (activeSection st)) as [E | _];
      [symmetry; exact E | reflexivity]. }
  assert (Hp : pathname st1 = p).
  { subst st1. cbn [step]. unfold sectionFromUrl.
    destruct (String.eqb _ _); reflexivity. }
  assert (Hs : selectedEventId st1 = selectedEventId st).
  { subst st1. cbn [step]. unfold sectionFromUrl.
    destruct (String.eqb _ _); reflexivity. }
  assert (Hrt : toSection (toPath (toSection p)) = toSection p).
  { destruct (toSection_cases p) as [E | [E | [E | E]]]; rewrite E;
      reflexivity. }
  set (st2 := step st1 (RunEffects false true)).
  assert (Ha2 : activeSection st2 = toSection p).
  { subst st2. cbn [step]. unfold urlFromSection.
    destruct (String.eqb _ _); exact Ha. }
  assert (Hp2 : pathname st2 = toPath (toSection p)).
  { subst st2. cbn [step]. unfold urlFromSection. rewrite Ha.
    destruct (String.eqb_spec (pathname st1) (toPath (toSection p)))
      as [E | _]; [exact E | reflexivity]. }
  split; [exact Ha|]. split; [exact Hp|]. split; [exact Hs|].
  split; [exact Hp2|].
  split.
  - intros b1 b2. cbn [step]. unfold sectionFromUrl, urlFromSection.
    rewrite Hp2, Ha2, Hrt, !String.eqb_refl. destruct b1, b2; reflexivity.
  - intros Hin b1 b2.
    assert (Hcanon : toPath (toSection p) = p).
    { unfold sitePaths in Hin. simpl in Hin.
      destruct Hin as [<- | [<- | [<- | [<- | []]]]]; reflexivity. }
    cbn [step]. unfold sectionFromUrl, urlFromSection.
    rewrite Hp, Ha, Hcanon, !String.eqb_refl. destruct b1, b2; reflexivity.
Qed.

(** X6: a location change and the effects that follow never close an
    event's detail view: with an event of the list selected, the view
    stays that event's detail view whatever the new path is. *)
Theorem detail_view_survives_location_change
    (st : State) (e : Event) (p : string) (b1 b2 : bool)
    (He : In e highlightsEvents)
    (Hsel : selectedEventId st = Some (id e)) :
  renderSection (step st (LocationChange p)) = renderEventDetail e
  /\ renderSection (step (step st (LocationChange p)) (RunEffects b1 b2))
     = renderEventDetail e.
Proof.
  split; apply renderSection_of_selection; try exact He.
  - exact Hsel.
  - rewrite run_effects_selection. exact Hsel.
Qed.

Lemma detail_view_survives_location_change_witness :
  In event2 highlightsEvents
  /\ selectedEventId (step (initial "/highlights") (ExploreClick event2))
     = Some (id event2)
  /\ renderSection
       (step (step (step (initial "/highlights") (ExploreClick event2))
                   (LocationChange "/about")) (RunEffects true false))
     = EventDetailView event2.
Proof.
  assert (He : In event2 highlightsEvents) by (right; left; reflexivity).
  split; [exact He|].
  split; [reflexivity|].
  destruct (detail_view_survives_location_change
              (step (initial "/highlights") (ExploreClick event2))
              event2 "/about" true false He eq_refl) as [_ H].
  exact H.
Defined.

End ComponentExtras.

Section SynchronisationExtras.

Import Routing Content Component Chrome.

(** X7: at mount both effects read the first render, whose section is
    Home: the section becomes [toSection p] while the address is sent to
    [/] (or left there).  Section and address therefore agree after the
    mount effects exactly when the page was opened on a path of the Home
    section. *)
Theorem mount_effects_send_address_home (p : string) :
  activeSection (step (initial p) (RunEffects true true)) = toSection p
  /\ pathname (step (initial p) (RunEffects true true)) = "/"
  /\ (synced (step (initial p) (RunEffects true true))
      <-> toSection p = "Home").
Proof.
  assert (Ha : activeSection (step (initial p) (RunEffects true true))
               = toSection p).
  { cbn [step]. unfold urlFromSection, sectionFromUrl.
    cbn [activeSection pathname initial toPath String.eqb Ascii.eqb
         Bool.eqb].
    destruct (String.eqb p "/");
      destruct (String.eqb_spec (toSection p) "Home") as [E | _];
      cbn [activeSection setPathname setActiveSection initial];
      try reflexivity; symmetry; exact E. }
  assert (Hp : pathname (step (initial p) (RunEffects true true)) = "/").
  { cbn [step]. unfold urlFromSection, sectionFromUrl.
    cbn [activeSection pathname initial toPath String.eqb Ascii.eqb
         Bool.eqb].
    destruct (String.eqb_spec p "/") as [E | _];
      destruct (String.eqb (toSection p) "Home");
      cbn [pathname setPathname setActiveSection initial];
      try reflexivity; exact E. }
  split; [exact Ha|]. split; [exact Hp|].
  unfold synced. rewrite Ha, Hp.
  destruct (toSection_cases p) as [E | [E | [E | E]]]; rewrite E;
    split; intros H; try reflexivity; discriminate H.
Qed.



(** X9: in every reachable state exactly one nav button is highlighted
    (and carries [aria-current]), the one of the active section. *)
Theorem one_nav_button_highlighted (st : State) (Hreach : reachable st) :
  filter snd (navButtons st) = [(activeSection st, true)]
  /\ map fst (navButtons st) = navItems.
Proof.
  destruct (reachable_invariants st Hreach) as [_ Hsec].
  unfold navButtons.
  split.
  - unfold section_ok, navItems in *. simpl in Hsec.
    destruct Hsec as [<- | [<- | [<- | [<- | []]]]]; reflexivity.
  - rewrite map_map. reflexivity.
Qed.

Lemma one_nav_button_highlighted_witness :
  reachable (step (initial "/") AboutUsClick)
  /\ filter snd (navButtons (step (initial "/") AboutUsClick))
     = [("About", true)].
Proof.
  assert (R : reachable (step (initial "/") AboutUsClick)).
  { apply reach_step; [apply reach_mount | exact I]. }
  split; [exact R|].
  destruct (one_nav_button_highlighted _ R) as [H _]. exact H.
Defined.

(** X10: in every reachable state the hero picture is the image of the
    event at the current index, so the fallback picture of
    [heroImages[currentHeroIndex] || '/images/mainImage.webp'] is never
    used, and exactly one dot is highlighted, the one of that index. *)
Theorem hero_picture_never_falls_back (st : State) (Hreach : reachable st) :
  nth_error heroImages (Z.to_nat (currentHeroIndex st))
  = Some (heroSrc (currentHeroIndex st))
  /\ In (heroSrc (currentHeroIndex st)) (map image highlightsEvents)
  /\ heroSrc (currentHeroIndex st) <> "/images/mainImage.webp"
  /\ filter snd (dotButtons st) = [(currentHeroIndex st, true)].
Proof.
  pose proof (reachable_hero_ok st Hreach) as Hok.
  unfold hero_ok in Hok. change heroCount with 4%Z in Hok.
  unfold dotButtons.
  assert (Hi : currentHeroIndex st = 0%Z \/ currentHeroIndex st = 1%Z
               \/ currentHeroIndex st = 2%Z \/ currentHeroIndex st = 3%Z)
    by lia.
  destruct Hi as [E | [E | [E | E]]]; rewrite E;
    (split; [reflexivity|]); (split; [simpl; tauto|]);
    (split; [discriminate | reflexivity]).
Qed.

Lemma hero_picture_never_falls_back_witness :
  reachable (step (step (initial "/") HeroTick) HeroTick)
  /\ heroSrc (currentHeroIndex (step (step (initial "/") HeroTick) HeroTick))
     <> "/images/mainImage.webp".
Proof.
  assert (R : reachable (step (step (initial "/") HeroTick) HeroTick)).
  { repeat (apply reach_step; [| exact I]). apply reach_mount. }
  split; [exact R|].
  destruct (hero_picture_never_falls_back _ R) as (_ & _ & H & _). exact H.
Defined.

End SynchronisationExtras.

(** ** The animated counter, frame by frame *)

Section CounterExtras.

Import Counter.
Local Open Scope Q_scope.

(** X12: the first frame of a run shows 0 and always asks for another
    frame, however late it arrives; its timestamp becomes the start of the
    clock, except that a first frame stamped 0 leaves [startTime] falsy,
    so that the clock starts at the following frame and that frame shows 0
    again. *)
Theorem counter_first_frame (p : Props) (t : Q)
    (Hduration : 0 < duration p) :
  count (animate p started t) = 0%Z
  /\ scheduled (animate p started t) = true
  /\ startTime (animate p started t) = Some t
  /\ startOf (animate p started 0) t = t
  /\ count (frames p started [0; t]) = 0%Z
  /\ scheduled (frames p started [0; t]) = true.
Proof.
  assert (Hfirst : forall u, scheduled (animate p started u) = true).
  { intros u. unfold animate. cbn [scheduled]. apply negb_true_iff.
    destruct (Qle_bool 1 (progressAt p started u)) eqn:E; [| reflexivity].
    apply Qle_bool_iff in E. exfalso.
    assert (Hp : progressAt p started u <= (u - startOf started u) / duration p)
      by apply Q.le_min_l.
    rewrite elapsed_first_frame in Hp. unfold Qdiv in Hp.
    rewrite Qmult_0_l in Hp. lra. }
  assert (Hzero : forall u, u - startOf (animate p started 0) u == 0).
  { intros u. unfold startOf, animate, started. cbn. ring. }
  split; [apply animate_first_count|].
  split; [apply Hfirst|].
  split; [reflexivity|].
  split; [reflexivity|].
  cbn [frames started scheduled]. rewrite (Hfirst 0).
  split.
  - rewrite count_animate.
    assert (Hp : Qmin ((t - startOf (animate p started 0) t) / duration p) 1
                 == 0).
    { rewrite Hzero. unfold Qdiv. rewrite Qmult_0_l.
      apply Q.min_l. discriminate. }
    rewrite (Qfloor_comp _ 0); [reflexivity|].
    rewrite (easeOutQuart_comp _ _ Hp), easeOutQuart_0. ring.
  - unfold animate at 1. cbn [scheduled]. apply negb_true_iff.
    destruct (Qle_bool 1 (progressAt p (animate p started 0) t)) eqn:E;
      [| reflexivity].
    apply Qle_bool_iff in E. exfalso.
    assert (Hp : progressAt p (animate p started 0) t
                 <= (t - startOf (animate p started 0) t) / duration p)
      by apply Q.le_min_l.
    rewrite Hzero in Hp. unfold Qdiv in Hp. rewrite Qmult_0_l in Hp. lra.
Qed.

Lemma counter_first_frame_witness :
  0 < duration livePerformances
  /\ count (animate livePerformances started 987654) = 0%Z
  /\ scheduled (frames livePerformances started [0; 5000]) = true.
Proof.
  assert (Hd : 0 < duration livePerformances) by reflexivity.
  split; [exact Hd|].
  destruct (counter_first_frame livePerformances 987654 Hd) as (Hc & _).
  split; [exact Hc|].
  destruct (counter_first_frame livePerformances 5000 Hd)
    as (_ & _ & _ & _ & _ & Hs).
  exact Hs.
Defined.

End CounterExtras.

(** ** The contact form, path by path *)

Section ContactFormExtras.

Import ContactForm Simulation Samples.

Lemma falsy_is_missing (env : Env) :
  Js.truthy (VITE_EMAILJS_SERVICE_ID env) = false
  \/ Js.truthy (VITE_EMAILJS_TEMPLATE_ID env) = false
  \/ Js.truthy (VITE_EMAILJS_PUBLIC_KEY env) = false ->
  configMissing env = true.
Proof.
  unfold configMissing. intros [E | [E | E]]; rewrite E; simpl;
    repeat rewrite ?orb_true_r, ?orb_true_l; reflexivity.
Qed.

Lemma local_host (env : Env) :
  hostname env = Some "localhost" \/ hostname env = Some "127.0.0.1" ->
  isLocalHost env = true.
Proof.
  unfold isLocalHost. intros [E | E]; rewrite E; reflexivity.
Qed.

(** X14: when the service identifier, the template identifier or the
    public key is undefined or the empty string, a submission makes no
    network call at all: on any host, whether or not the form is attached,
    and also after its timer has fired. *)
Theorem no_network_call_without_configuration
    (env : Env) (st : Component.State) (out : Outside)
    (mounted later : option Form)
    (Hfalsy : Js.truthy (VITE_EMAILJS_SERVICE_ID env) = false
              \/ Js.truthy (VITE_EMAILJS_TEMPLATE_ID env) = false
              \/ Js.truthy (VITE_EMAILJS_PUBLIC_KEY env) = false) :
  network (submit env st out mounted) = []
  /\ network (submit_and_settle env st out mounted later) = [].
Proof.
  pose proof (falsy_is_missing env Hfalsy) as Hg.
  unfold submit_and_settle.
  destruct mounted as [form|]; [| split; reflexivity].
  destruct (isLocalHost env) eqn:Hl.
  - rewrite (submit_unconfigured_local env st out form Hg Hl).
    split; [reflexivity|]. destruct later; reflexivity.
  - rewrite (submit_unconfigured_remote env st out form Hg Hl).
    split; reflexivity.
Qed.

Lemma no_network_call_without_configuration_witness :
  Js.truthy (VITE_EMAILJS_PUBLIC_KEY
               {| VITE_EMAILJS_SERVICE_ID := Some "service_hpc";
                  VITE_EMAILJS_TEMPLATE_ID := Some "template_contact";
                  VITE_EMAILJS_PUBLIC_KEY := Some "";
                  VITE_EMAILJS_REPLY_TEMPLATE_ID := Some "template_reply";
                  VITE_REPLY_EMAIL := None;
                  hostname := Some "harmonia.example.org" |}) = false
  /\ network (submit {| VITE_EMAILJS_SERVICE_ID := Some "service_hpc";
                        VITE_EMAILJS_TEMPLATE_ID := Some "template_contact";
                        VITE_EMAILJS_PUBLIC_KEY := Some "";
                        VITE_EMAILJS_REPLY_TEMPLATE_ID :=
                          Some "template_reply";
                        VITE_REPLY_EMAIL := None;
                        hostname := Some "harmonia.example.org" |}
                     filled (outcome true false true) (Some filledForm))
     = [].
Proof.
  split; [reflexivity|].
  destruct (no_network_call_without_configuration
              {| VITE_EMAILJS_SERVICE_ID := Some "service_hpc";
                 VITE_EMAILJS_TEMPLATE_ID := Some "template_contact";
                 VITE_EMAILJS_PUBLIC_KEY := Some "";
                 VITE_EMAILJS_REPLY_TEMPLATE_ID := Some "template_reply";
                 VITE_REPLY_EMAIL := None;
                 hostname := Some "harmonia.example.org" |}
              filled (outcome true false true) (Some filledForm) None
              (or_intror (or_intror eq_refl))) as [H _].
  exact H.
Defined.

(** X15: on [localhost] or [127.0.0.1] with the configuration missing,
    the handler shows nothing at once: it logs, warns and arms one 700 ms
    timer.  When the timer fires the user sees the simulated-success alert
    and the form is cleared if it is still attached; a detached form is
    tolerated. *)
Theorem local_host_simulates_delivery
    (env : Env) (st : Component.State) (out : Outside) (form : Form)
    (later : option Form)
    (Hfalsy : Js.truthy (VITE_EMAILJS_SERVICE_ID env) = false
              \/ Js.truthy (VITE_EMAILJS_TEMPLATE_ID env) = false
              \/ Js.truthy (VITE_EMAILJS_PUBLIC_KEY env) = false)
    (Hlocal : hostname env = Some "localhost"
              \/ hostname env = Some "127.0.0.1") :
  submit env st out (Some form)
  = [PreventDefault;
     Console Error "Missing EmailJS configuration";
     Console Warn "Simulating email send on localhost.";
     SetTimeout SimulatedSend 700]
  /\ visible (submit env st out (Some form)) = []
  /\ visible (submit_and_settle env st out (Some form) later)
     = match later with
       | Some _ => [Alert "Simulated: Message sent!"; FormReset]
       | None => [Alert "Simulated: Message sent!"]
       end.
Proof.
  pose proof (falsy_is_missing env Hfalsy) as Hg.
  pose proof (local_host env Hlocal) as Hl.
  unfold submit_and_settle.
  rewrite (submit_unconfigured_local env st out form Hg Hl).
  split; [reflexivity|]. split; [reflexivity|].
  destruct later; reflexivity.
Qed.

Lemma local_host_simulates_delivery_witness :
  Js.truthy (VITE_EMAILJS_TEMPLATE_ID (unconfigured "localhost")) = false
  /\ hostname (unconfigured "localhost") = Some "localhost"
  /\ visible (submit_and_settle (unconfigured "localhost") filled
                (outcome true false true) (Some filledForm) (Some filledForm))
     = [Alert "Simulated: Message sent!"; FormReset].
Proof.
  split; [reflexivity|]. split; [reflexivity|].
  destruct (local_host_simulates_delivery
              (unconfigured "localhost") filled (outcome true false true)
              filledForm (Some filledForm)
              (or_intror (or_introl eq_refl)) (or_introl eq_refl))
    as (_ & _ & H).
  exact H.
Defined.

(** X16: with the configuration present, the provider call resolving and
    the form still attached, the user sees the success alert followed by
    the form being cleared and nothing else; the first network call is the
    one [sendForm] with the configured identifiers and the form, and at
    most one acknowledgement follows it. *)
Theorem successful_delivery_confirms_and_clears
    (env : Env) (st : Component.State) (out : Outside) (form : Form)
    (Hservice : Js.truthy (VITE_EMAILJS_SERVICE_ID env) = true)
    (Htemplate : Js.truthy (VITE_EMAILJS_TEMPLATE_ID env) = true)
    (Hkey : Js.truthy (VITE_EMAILJS_PUBLIC_KEY env) = true)
    (Hresolves : sendForm_resolves out = true)
    (Hmounted : unmounted_during_await out = false) :
  visible (submit env st out (Some form))
  = [Alert "Message sent successfully!"; FormReset]
  /\ network (submit env st out (Some form))
     = SendForm (text (VITE_EMAILJS_SERVICE_ID env))
                (text (VITE_EMAILJS_TEMPLATE_ID env)) form
                (text (VITE_EMAILJS_PUBLIC_KEY env))
       :: acks (submit env st out (Some form))
  /\ (length (acks (submit env st out (Some form))) <= 1)%nat
  /\ timers (submit env st out (Some form)) = [].
Proof.
  rewrite (submit_resolved_mounted env st out form
             (present_is_not_missing env Hservice Htemplate Hkey)
             Hresolves Hmounted).
  destruct (wantsReply env st); [destruct (send_resolves out)|];
    repeat split; cbn; auto.
Qed.

Lemma successful_delivery_confirms_and_clears_witness :
  Js.truthy (VITE_EMAILJS_SERVICE_ID (configured None "harmonia.example.org"))
  = true
  /\ sendForm_resolves (outcome true false false) = true
  /\ unmounted_during_await (outcome true false false) = false
  /\ visible (submit (configured None "harmonia.example.org") filled
                     (outcome true false false) (Some filledForm))
     = [Alert "Message sent successfully!"; FormReset].
Proof.
  split; [reflexivity|]. split; [reflexivity|]. split; [reflexivity|].
  destruct (successful_delivery_confirms_and_clears
              (configured None "harmonia.example.org") filled
              (outcome true false false) filledForm
              eq_refl eq_refl eq_refl eq_refl eq_refl) as [H _].
  exact H.
Defined.

(** X17: whatever the path, a submission sends at most one
    acknowledgement, and the one it sends goes through the configured
    service with the reply template and the public key, is addressed to
    the address typed into the form, and names as reply address
    [VITE_REPLY_EMAIL], or [hpcsingers@gmail.com] when that is undefined
    or empty. *)
Theorem acknowledgement_is_addressed_to_sender
    (env : Env) (st : Component.State) (out : Outside)
    (mounted : option Form) :
  (length (acks (submit env st out mounted)) <= 1)%nat
  /\ Forall (fun e => e = Send (text (VITE_EMAILJS_SERVICE_ID env))
                            (text (VITE_EMAILJS_REPLY_TEMPLATE_ID env))
                            (replyParams env st)
                            (text (VITE_EMAILJS_PUBLIC_KEY env)))
            (acks (submit env st out mounted))
  /\ to_email (replyParams env st) = Component.userEmail st
  /\ (Js.truthy (VITE_REPLY_EMAIL env) = false ->
      reply_email (replyParams env st) = "hpcsingers@gmail.com")
  /\ (Js.truthy (VITE_REPLY_EMAIL env) = true ->
      Some (reply_email (replyParams env st)) = VITE_REPLY_EMAIL env).
Proof.
  assert (Hacks : (length (acks (submit env st out mounted)) <= 1)%nat
                  /\ Forall (fun e => e = Send (text (VITE_EMAILJS_SERVICE_ID env))
                            (text (VITE_EMAILJS_REPLY_TEMPLATE_ID env))
                            (replyParams env st)
                            (text (VITE_EMAILJS_PUBLIC_KEY env)))
                            (acks (submit env st out mounted))).
  { destruct mounted as [form|]; [| split; [apply Nat.le_0_l | constructor]].
    destruct (configMissing env) eqn:Hg.
    - destruct (isLocalHost env) eqn:Hl.
      + rewrite (submit_unconfigured_local env st out form Hg Hl).
        split; [apply Nat.le_0_l | constructor].
      + rewrite (submit_unconfigured_remote env st out form Hg Hl).
        split; [apply Nat.le_0_l | constructor].
    - destruct (sendForm_resolves out) eqn:Hr.
      + destruct (unmounted_during_await out) eqn:Hu.
        * rewrite (submit_resolved_unmounted env st out form Hg Hr Hu).
          split; [apply Nat.le_0_l | constructor].
        * rewrite (submit_resolved_mounted env st out form Hg Hr Hu).
          destruct (wantsReply env st); [destruct (send_resolves out)|];
            cbn; split; auto; repeat constructor.
      + rewrite (submit_rejected env st out form Hg Hr).
        split; [apply Nat.le_0_l | constructor]. }
  destruct Hacks as [Hlen Hall].
  split; [exact Hlen|]. split; [exact Hall|]. split; [reflexivity|].
  unfold replyParams, Js.or_else, Js.truthy. cbn [reply_email].
  destruct (VITE_REPLY_EMAIL env) as [r|].
  - split; intros H; rewrite H; reflexivity.
  - split; [reflexivity | discriminate].
Qed.

Lemma acknowledgement_iff_when_mounted_witness :
  configMissing (configured (Some "template_reply") "harmonia.example.org")
  = false
  /\ unmounted_during_await (outcome true false false) = false
  /\ acks (submit (configured (Some "template_reply") "harmonia.example.org")
                  filled (outcome true false false) (Some filledForm)) <> [].
Proof.
  split; [reflexivity|]. split; [reflexivity|].
  apply (acknowledgement_iff_when_mounted
           (configured (Some "template_reply") "harmonia.example.org")
           filled (outcome true false false) filledForm eq_refl eq_refl).
  repeat split.
Defined.

Lemma acknowledgement_only_if_witness :
  acks (submit (configured (Some "template_reply") "harmonia.example.org")
               filled (outcome true false true) (Some filledForm)) <> []
  /\ sendForm_resolves (outcome true false true) = true
  /\ Js.truthy_string (Component.userEmail filled) = true.
Proof.
  assert (H : acks (submit (configured (Some "template_reply")
                                       "harmonia.example.org")
                           filled (outcome true false true)
                           (Some filledForm)) <> []) by discriminate.
  split; [exact H|].
  destruct (acknowledgement_only_if _ _ _ _ H) as (H1 & _ & H3).
  split; [exact H1 | exact H3].
Defined.

(** X21: a submission from an attached form never goes unanswered: once
    its timer, if any, has fired, at least one alert has been shown on
    every path. *)
Theorem submission_is_always_answered
    (env : Env) (st : Component.State) (out : Outside) (form : Form)
    (later : option Form) :
  exists msg,
    In (Alert msg) (submit_and_settle env st out (Some form) later).
Proof.
  unfold submit_and_settle.
  destruct (configMissing env) eqn:Hg.
  - destruct (isLocalHost env) eqn:Hl.
    + rewrite (submit_unconfigured_local env st out form Hg Hl).
      exists "Simulated: Message sent!". destruct later; cbn; tauto.
    + rewrite (submit_unconfigured_remote env st out form Hg Hl).
      exists "Email service is not configured. Please try again later.".
      cbn. tauto.
  - destruct (sendForm_resolves out) eqn:Hr.
    + exists "Message sent successfully!".
      destruct (unmounted_during_await out) eqn:Hu.
      * rewrite (submit_resolved_unmounted env st out form Hg Hr Hu).
        cbn. tauto.
      * rewrite (submit_resolved_mounted env st out form Hg Hr Hu).
        destruct (wantsReply env st); [destruct (send_resolves out)|];
          cbn; tauto.
    + rewrite (submit_rejected env st out form Hg Hr).
      exists "Failed to send message. Please try again later.". cbn. tauto.
Qed.

(** X22: the success alert and the failure alert appear in the same
    submission exactly when the configuration is present, the provider
    call resolved, and the form was detached while the handler awaited
    it. *)
Theorem contradictory_alerts_only_after_unmount
    (env : Env) (st : Component.State) (out : Outside) (form : Form) :
  (In (Alert "Message sent successfully!") (submit env st out (Some form))
   /\ In (Alert "Failed to send message. Please try again later.")
         (submit env st out (Some form)))
  <-> (configMissing env = false
       /\ sendForm_resolves out = true
       /\ unmounted_during_await out = true).
Proof.
  destruct (configMissing env) eqn:Hg.
  - destruct (isLocalHost env) eqn:Hl.
    + rewrite (submit_unconfigured_local env st out form Hg Hl).
      split; [| intros (H & _); discriminate H].
      intros [[H | [H | [H | [H | []]]]] _]; discriminate H.
    + rewrite (submit_unconfigured_remote env st out form Hg Hl).
      split; [| intros (H & _); discriminate H].
      intros [[H | [H | [H | []]]] _]; discriminate H.
  - destruct (sendForm_resolves out) eqn:Hr.
    + destruct (unmounted_during_await out) eqn:Hu.
      * rewrite (submit_resolved_unmounted env st out form Hg Hr Hu).
        split; [auto|]. intros _. cbn. tauto.
      * rewrite (submit_resolved_mounted env st out form Hg Hr Hu).
        split; [| intros (_ & _ & H); discriminate H].
        intros [_ H]. exfalso.
        destruct (wantsReply env st); [destruct (send_resolves out)|];
          cbn in H;
          repeat (destruct H as [H | H]; [discriminate H|]); exact H.
    + rewrite (submit_rejected env st out form Hg Hr).
      split; [| intros (_ & H & _); discriminate H].
      intros [[H | [H | [H | [H | []]]]] _]; discriminate H.
Qed.

End ContactFormExtras.

(** ** Breakpoints *)

Section MediaExtras.

Import Media.
Local Open Scope Z_scope.

Lemma Qle_bool_inject (a b : Z) :
  Qle_bool (inject_Z a) (inject_Z b) = (a <=? b).
Proof.
  unfold Qle_bool, inject_Z. cbn [Qnum Qden]. rewrite !Z.mul_1_r.
  reflexivity.
Qed.

(** X23: once the hooks have read the viewport, a whole-number width
    satisfies exactly one of the three breakpoints: mobile up to 768,
    tablet from 769 to 1024, desktop from 1025 on.  The text navigation is
    shown from 1025 on (the icon navigation below), and the About Us button
    of the Home card from 769 on. *)
Theorem breakpoints_partition_whole_widths (w : Z) :
  isMobile (Some (inject_Z w)) = (w <=? 768)
  /\ isTablet (Some (inject_Z w)) = ((769 <=? w) && (w <=? 1024))%bool
  /\ isDesktop (Some (inject_Z w)) = (1025 <=? w)
  /\ length (filter (fun b : bool => b)
               [isMobile (Some (inject_Z w));
                isTablet (Some (inject_Z w));
                isDesktop (Some (inject_Z w))]) = 1%nat
  /\ (navStyle (Some (inject_Z w)) = TextNav <-> 1025 <= w)
  /\ (aboutUsShown (Some (inject_Z w)) = true <-> 769 <= w).
Proof.
  unfold navStyle, aboutUsShown, isMobile, isTablet, isDesktop,
    useMediaQuery, mobileQuery, tabletQuery, desktopQuery.
  cbn [matchMedia]. rewrite !Qle_bool_inject.
  split; [reflexivity|]. split; [reflexivity|]. split; [reflexivity|].
  destruct (Z.leb_spec w 768), (Z.leb_spec 769 w), (Z.leb_spec w 1024),
    (Z.leb_spec 1025 w); try lia; cbn;
    (split; [reflexivity|]); split; split; intros; try lia;
    try reflexivity; try discriminate.
Qed.

(** X24: the breakpoints leave a gap: at a width strictly between 768 and
    769 pixels none of the three holds, so the page shows the icon
    navigation together with the About Us button, exactly as on the first
    render, before the hooks have read the viewport. *)
Theorem breakpoints_leave_a_gap (width : Q)
    (Hlow : (768 < width)%Q) (Hhigh : (width < 769)%Q) :
  isMobile (Some width) = false
  /\ isTablet (Some width) = false
  /\ isDesktop (Some width) = false
  /\ navStyle (Some width) = navStyle None
  /\ aboutUsShown (Some width) = aboutUsShown None
  /\ navStyle None = IconNav
  /\ aboutUsShown None = true.
Proof.
  assert (Hm : Qle_bool width (inject_Z 768) = false).
  { destruct (Qle_bool width (inject_Z 768)) eqn:E; [| reflexivity].
    apply Qle_bool_iff in E. exfalso. apply (Qlt_not_le _ _ Hlow). exact E. }
  assert (Ht : Qle_bool (inject_Z 769) width = false).
  { destruct (Qle_bool (inject_Z 769) width) eqn:E; [| reflexivity].
    apply Qle_bool_iff in E. exfalso. apply (Qlt_not_le _ _ Hhigh). exact E. }
  assert (Hd : Qle_bool (inject_Z 1025) width = false).
  { destruct (Qle_bool (inject_Z 1025) width) eqn:E; [| reflexivity].
    apply Qle_bool_iff in E. exfalso.
    assert (H : (1025 <= 769)%Q)
      by (apply Qle_trans with width; [exact E | apply Qlt_le_weak, Hhigh]).
    apply Qle_bool_iff in H. discriminate H. }
  unfold navStyle, aboutUsShown, isMobile, isTablet, isDesktop,
    useMediaQuery, mobileQuery, tabletQuery, desktopQuery.
  cbn [matchMedia]. rewrite Hm, Ht, Hd. repeat split.
Qed.

Lemma breakpoints_leave_a_gap_witness :
  (768 < 1537 # 2)%Q /\ (1537 # 2 < 769)%Q
  /\ isMobile (Some (1537 # 2)) = false
  /\ isDesktop (Some (1537 # 2)) = false.
Proof.
  assert (H1 : (768 < 1537 # 2)%Q) by reflexivity.
  assert (H2 : (1537 # 2 < 769)%Q) by reflexivity.
  split; [exact H1|]. split; [exact H2|].
  destruct (breakpoints_leave_a_gap (1537 # 2) H1 H2)
    as (Hm & _ & Hd & _).
  split; [exact Hm | exact Hd].
Defined.

End MediaExtras.
